(** * registryWrapper: a shallow embedding of wrapper.cpp

    The four entry points of [Wrapper] (two [RegWrite] overloads, two [RegDel]
    overloads) share one shape: sniff a root prefix off [path], call one or
    two registry primitives, and turn a failed primitive into a message box
    through a locally caught [std::runtime_error].

    The embedding follows the source line by line:
    - wide strings are lists of 16-bit code units, the terminating NUL left
      implicit, with [wcsncmp] and [wcslen] written out;
    - the prefix loop runs to [sizeof(branch)], as the source has it, and
      reads of [branch[j]] and [keys[j]] beyond the three elements are
      answered by an explicit stack frame;
    - the registry and the desktop are an oracle [OS]; every call the wrapper
      issues is logged together with the reply it got;
    - [throw]/[catch] is an error monad over that state. *)

From Stdlib Require Import ZArith List String Ascii Bool Lia.
Import ListNotations.
Local Open Scope Z_scope.

(** ** Wide strings *)

Definition wchar_t := Z.

(** A [LPCWSTR] is modelled by the code units it points at; what follows the
    last listed unit is the terminator [L'\0']. *)
Definition wstring := list wchar_t.

Definition sizeof_wchar_t : Z := 2.

(** The wide literal [L"..."] of an ASCII text. *)
Definition L (s : string) : wstring :=
  map (fun a => Z.of_N (N_of_ascii a)) (list_ascii_of_string s).

(** The code unit under the pointer: the head, or the terminator. *)
Definition peek (s : wstring) : wchar_t := hd 0 s.

(** [wcsncmp(s1, s2, n)]: compares at most [n] units and stops at a
    terminator; the sign of the first difference, [0] when there is none. *)
Fixpoint wcsncmp (s1 s2 : wstring) (n : nat) : Z :=
  match n with
  | O => 0
  | S n' =>
      let c1 := peek s1 in
      let c2 := peek s2 in
      if c1 =? c2 then
        if c1 =? 0 then 0 else wcsncmp (tl s1) (tl s2) n'
      else if c1 <? c2 then -1 else 1
  end.

(** [wcslen(s)]: the number of units before the first terminator. *)
Fixpoint wcslen (s : wstring) : Z :=
  match s with
  | [] => 0
  | c :: s' => if c =? 0 then 0 else 1 + wcslen s'
  end.

(** [path += n].  Exact as long as the [n] units skipped lie before the
    terminator, which a match on one of the three prefixes guarantees.  On
    a shorter text the source's pointer moves past the terminator into
    memory the list does not describe; what is stated below about an
    advanced path is stated for texts on which [advance] is exact. *)
Definition advance (n : nat) (path : wstring) : wstring := skipn n path.

(** ** Handles, build targets and the stack frame *)

Inductive HKEY :=
| HKEY_CLASSES_ROOT
| HKEY_CURRENT_USER
| HKEY_LOCAL_MACHINE
| hkey (h : Z).

(** The two Windows targets differ in the size of a pointer, which is what
    [sizeof(branch)] multiplies. *)
Inductive Arch := Win32 | Win64.

Definition sizeof_ptr (a : Arch) : Z :=
  match a with Win32 => 4 | Win64 => 8 end.

(** [const wchar_t* branch[] { L"HKCU\\", L"HKLM\\", L"HKCR\\" };] *)
Definition branch : list wstring := [L "HKCU\"; L "HKLM\"; L "HKCR\"].

(** [HKEY keys[] { HKEY_CURRENT_USER, HKEY_LOCAL_MACHINE, HKEY_CLASSES_ROOT };] *)
Definition keys : list HKEY :=
  [HKEY_CURRENT_USER; HKEY_LOCAL_MACHINE; HKEY_CLASSES_ROOT].

(** [sizeof(branch)]: the byte size of an array of three pointers. *)
Definition sizeof_branch (a : Arch) : Z :=
  Z.of_nat (List.length branch) * sizeof_ptr a.

(** What an execution finds when it indexes [branch] or [keys] beyond their
    three elements.  The language leaves such a read undefined; the frame
    makes its result a parameter, so that nothing is assumed about it:
    [beyond_branch j] is the text the stray pointer leads to, or [None] when
    dereferencing it faults. *)
Record Frame := {
  beyond_branch : nat -> option wstring;
  beyond_keys : nat -> HKEY
}.

(** [branch[j]], as [wcsncmp] sees it. *)
Definition read_branch (f : Frame) (j : nat) : option wstring :=
  match nth_error branch j with
  | Some b => Some b
  | None => beyond_branch f j
  end.

(** [keys[j]]. *)
Definition read_keys (f : Frame) (j : nat) : HKEY :=
  match nth_error keys j with
  | Some k => k
  | None => beyond_keys f j
  end.

(** ** Root resolution *)

Inductive Resolution :=
| Resolved (rootKey : HKEY) (path : wstring)
| AccessViolation (j : nat).

(** The loop
    [for (int j = 0; j < sizeof(branch); j++)
       if (wcsncmp(path, branch[j], 5) == 0) { rootKey = keys[j]; path += 5; break; }]
    with [n] iterations left from index [j]; [rootKey] starts at
    [HKEY_CURRENT_USER].  The first component lists the indices at which
    [branch] was read. *)
Fixpoint resolve_loop (f : Frame) (path : wstring) (j : nat) (n : nat)
  : list nat * Resolution :=
  match n with
  | O => ([], Resolved HKEY_CURRENT_USER path)
  | S n' =>
      match read_branch f j with
      | None => ([j], AccessViolation j)
      | Some b =>
          if wcsncmp path b 5 =? 0
          then ([j], Resolved (read_keys f j) (advance 5 path))
          else let (t, r) := resolve_loop f path (S j) n' in (j :: t, r)
      end
  end.

Definition resolve_trace (a : Arch) (f : Frame) (path : wstring)
  : list nat * Resolution :=
  resolve_loop f path 0 (Z.to_nat (sizeof_branch a)).

Definition indices_read (a : Arch) (f : Frame) (path : wstring) : list nat :=
  fst (resolve_trace a f path).

Definition resolve (a : Arch) (f : Frame) (path : wstring) : Resolution :=
  snd (resolve_trace a f path).

(** ** Integers of the Windows ABI *)

Definition DWORD := Z.
Definition LSTATUS := Z.
Definition byte := Z.

Definition sizeof_DWORD : Z := 4.

(** Arithmetic on [size_t] wraps at the width of a pointer. *)
Definition size_t_wrap (a : Arch) (z : Z) : Z := z mod 2 ^ (8 * sizeof_ptr a).

(** Passing a [size_t] where a [DWORD] parameter is declared keeps the low
    32 bits. *)
Definition to_DWORD (z : Z) : DWORD := z mod 2 ^ 32.

(** Constants of the Windows SDK headers the source includes. *)
Definition ERROR_SUCCESS : LSTATUS := 0.
Definition REG_OPTION_NON_VOLATILE : DWORD := 0.
Definition KEY_WRITE : DWORD := 0x20006.
Definition KEY_ALL_ACCESS : DWORD := 0xF003F.
Definition MB_ICONERROR : Z := 0x10.

(** Little-endian object representation. *)
Definition byte_at (v : Z) (i : Z) : byte := Z.land (Z.shiftr v (8 * i)) 255.

Definition wchar_bytes (c : wchar_t) : list byte := [byte_at c 0; byte_at c 1].

Definition DWORD_bytes (v : DWORD) : list byte :=
  [byte_at v 0; byte_at v 1; byte_at v 2; byte_at v 3].

Definition DWORD_of_bytes (bs : list byte) : Z :=
  fold_right (fun b acc => Z.lor b (Z.shiftl acc 8)) 0 bs.

(** The bytes lying at [(LPBYTE)value] for a wide string: its units, then
    the terminator. *)
Definition wstring_bytes (s : wstring) : list byte :=
  flat_map wchar_bytes (s ++ [0]).

(** [(wcslen(value) + 1) * sizeof(wchar_t)], computed in [size_t] and passed
    as the [DWORD cbData]. *)
Definition text_cbData (a : Arch) (value : wstring) : DWORD :=
  to_DWORD (size_t_wrap a (size_t_wrap a (wcslen value + 1) * sizeof_wchar_t)).

(** ** The operating system as an oracle *)

(** The calls the wrapper issues.  Arguments the source fixes to [0] or
    [NULL] are left out; [lpData] holds the bytes lying at the pointer, of
    which the system reads the first [cbData]. *)
Inductive Call :=
| RegCreateKeyEx (hKey : HKEY) (lpSubKey : wstring) (dwOptions samDesired : DWORD)
| RegSetValueEx (hKey : HKEY) (lpValueName : wstring) (dwType : DWORD)
    (lpData : list byte) (cbData : DWORD)
| RegDeleteKey (hKey : HKEY) (lpSubKey : wstring)
| RegOpenKeyEx (hKey : HKEY) (lpSubKey : wstring) (samDesired : DWORD)
| RegDeleteValue (hKey : HKEY) (lpValueName : wstring)
| RegCloseKey (hKey : HKEY)
| MessageBoxA (lpText lpCaption : string) (uType : Z).

(** The payload a [RegSetValueEx] call stores. *)
Definition payload (lpData : list byte) (cbData : DWORD) : list byte :=
  firstn (Z.to_nat cbData) lpData.

(** What a call hands back: its return value and, for the two calls that
    take [&rootKey], the handle written through it. *)
Record Reply := { status : LSTATUS; phkResult : HKEY }.

Record OS := {
  world : Type;
  respond : Call -> world -> Reply * world
}.

(** One line of the log: a call and what it handed back. *)
Record Event := { call : Call; reply : Reply }.

Definition returned (e : Event) : LSTATUS := status (reply e).

(** The five primitives whose return value the source tests. *)
Definition checked (c : Call) : bool :=
  match c with
  | RegCreateKeyEx _ _ _ _ | RegSetValueEx _ _ _ _ _ | RegDeleteKey _ _
  | RegOpenKeyEx _ _ _ | RegDeleteValue _ _ => true
  | RegCloseKey _ | MessageBoxA _ _ _ => false
  end.

Definition failed (e : Event) : bool :=
  checked (call e) && negb (returned e =? ERROR_SUCCESS).

Definition is_MessageBoxA (e : Event) : bool :=
  match call e with MessageBoxA _ _ _ => true | _ => false end.

Definition is_RegCloseKey (e : Event) : bool :=
  match call e with RegCloseKey _ => true | _ => false end.

(** ** State, exceptions and the four operations *)

(** A computation either yields a value or leaves by
    [throw std::runtime_error(what)]. *)
Inductive Result (A : Type) :=
| Val (x : A)
| Throw (what : string).
Arguments Val {A} x.
Arguments Throw {A} what.

(** How a call of one of the [void] operations ends, as its caller sees it:
    it returns, an exception leaves it, or the prefix loop faulted reading
    [branch[j]]. *)
Inductive Outcome :=
| Returned
| Escaped (what : string)
| Faulted (j : nat).

Section Wrapper.

Variable os : OS.

Record State := { now : world os; log : list Event }.

Definition M (A : Type) : Type := State -> Result A * State.

Definition ret {A} (x : A) : M A := fun s => (Val x, s).

Definition bind {A B} (m : M A) (k : A -> M B) : M B :=
  fun s =>
    match m s with
    | (Val x, s') => k x s'
    | (Throw what, s') => (Throw what, s')
    end.

Definition throw {A} (what : string) : M A := fun s => (Throw what, s).

(** [try { m } catch (const std::exception& ex) { h(ex.what()) }] *)
Definition try_catch {A} (m : M A) (h : string -> M A) : M A :=
  fun s =>
    match m s with
    | (Val x, s') => (Val x, s')
    | (Throw what, s') => h what s'
    end.

(** Issue a call: the system answers and the log grows by one line. *)
Definition invoke (c : Call) : M Reply :=
  fun s =>
    let (r, w) := respond os c (now s) in
    (Val r, {| now := w; log := log s ++ [{| call := c; reply := r |}] |}).

Notation "x <- m ;; k" := (bind m (fun x => k))
  (at level 61, m at next level, right associativity).

(** The handler shared by the four operations. *)
Definition report (what : string) : M unit :=
  _ <- invoke (MessageBoxA what "error" MB_ICONERROR) ;; ret tt.

(** The guarded block of [RegWrite]: create, set, close.  [lpData] and
    [cbData] are what the overload passes for its value. *)
Definition write_block (rootKey : HKEY) (path name : wstring) (type : DWORD)
    (lpData : list byte) (cbData : DWORD) : M unit :=
  r <- invoke (RegCreateKeyEx rootKey path REG_OPTION_NON_VOLATILE KEY_WRITE) ;;
  if status r =? ERROR_SUCCESS then
    let rootKey := phkResult r in
    r' <- invoke (RegSetValueEx rootKey name type lpData cbData) ;;
    if status r' =? ERROR_SUCCESS then
      _ <- invoke (RegCloseKey rootKey) ;; ret tt
    else throw "failed to RegSetValueEx"
  else throw "failed to RegCreateKeyEx".

Definition delete_key_block (rootKey : HKEY) (path : wstring) : M unit :=
  r <- invoke (RegDeleteKey rootKey path) ;;
  if status r =? ERROR_SUCCESS then
    _ <- invoke (RegCloseKey rootKey) ;; ret tt
  else throw "failed to RegDeleteKey".

Definition delete_value_block (rootKey : HKEY) (path name : wstring) : M unit :=
  r <- invoke (RegOpenKeyEx rootKey path KEY_ALL_ACCESS) ;;
  if status r =? ERROR_SUCCESS then
    let rootKey := phkResult r in
    r' <- invoke (RegDeleteValue rootKey name) ;;
    if status r' =? ERROR_SUCCESS then
      _ <- invoke (RegCloseKey rootKey) ;; ret tt
    else throw "failed to RegDeleteValue"
  else throw "failed to RegOpenKeyEx".

(** The common frame of the four bodies.  Each of them opens with the same
    declarations and the same prefix loop, word for word, and closes with
    the same handler; they differ in the guarded block only. *)
Definition operation (a : Arch) (f : Frame) (path : wstring)
    (block : HKEY -> wstring -> M unit) (s : State) : Outcome * State :=
  match resolve a f path with
  | AccessViolation j => (Faulted j, s)
  | Resolved rootKey path' =>
      match try_catch (block rootKey path') report s with
      | (Val _, s') => (Returned, s')
      | (Throw what, s') => (Escaped what, s')
      end
  end.

(** [void Wrapper::RegWrite(LPCWSTR path, LPCWSTR name, LPCWSTR value, DWORD type)] *)
Definition RegWrite_text (a : Arch) (f : Frame)
    (path name value : wstring) (type : DWORD) : State -> Outcome * State :=
  operation a f path
    (fun rootKey path' =>
       write_block rootKey path' name type (wstring_bytes value) (text_cbData a value)).

(** [void Wrapper::RegWrite(LPCWSTR path, LPCWSTR name, DWORD value, DWORD type)] *)
Definition RegWrite_num (a : Arch) (f : Frame)
    (path name : wstring) (value type : DWORD) : State -> Outcome * State :=
  operation a f path
    (fun rootKey path' =>
       write_block rootKey path' name type (DWORD_bytes value) sizeof_DWORD).

(** [void Wrapper::RegDel(LPCWSTR path)] *)
Definition RegDel_key (a : Arch) (f : Frame) (path : wstring)
  : State -> Outcome * State :=
  operation a f path delete_key_block.

(** [void Wrapper::RegDel(LPCWSTR path, LPCWSTR name)] *)
Definition RegDel_value (a : Arch) (f : Frame) (path name : wstring)
  : State -> Outcome * State :=
  operation a f path (fun rootKey path' => delete_value_block rootKey path' name).

Definition start (w : world os) : State := {| now := w; log := [] |}.

End Wrapper.

Arguments now {os} s.
Arguments log {os} s.

(** A call of one of the four entry points, with its arguments. *)
Inductive Request :=
| WriteTextValue (path name value : wstring) (type : DWORD)
| WriteNumericValue (path name : wstring) (value type : DWORD)
| DeleteKey (path : wstring)
| DeleteValue (path name : wstring).

Definition request_path (r : Request) : wstring :=
  match r with
  | WriteTextValue path _ _ _ | WriteNumericValue path _ _ _
  | DeleteKey path | DeleteValue path _ => path
  end.

Definition perform (os : OS) (a : Arch) (f : Frame) (r : Request)
  : State os -> Outcome * State os :=
  match r with
  | WriteTextValue path name value type => RegWrite_text os a f path name value type
  | WriteNumericValue path name value type => RegWrite_num os a f path name value type
  | DeleteKey path => RegDel_key os a f path
  | DeleteValue path name => RegDel_value os a f path name
  end.

(** The log a call leaves when started in world [w]. *)
Definition log_of {os : OS} (run : State os -> Outcome * State os) (w : world os)
  : list Event :=
  log (snd (run (start os w))).

Definition outcome_of {os : OS} (run : State os -> Outcome * State os) (w : world os)
  : Outcome :=
  fst (run (start os w)).

Definition calls (l : list Event) : list Call := map call l.

(** ** Systems and frames to run the model on *)

(** A system that answers the calls, in order, with the statuses of a
    script and with [ERROR_SUCCESS] once the script is used up; the handle
    it hands out is [hkey 100]. *)
Definition scripted : OS := {|
  world := list LSTATUS;
  respond := fun _ w =>
    match w with
    | [] => ({| status := ERROR_SUCCESS; phkResult := hkey 100 |}, [])
    | st :: w' => ({| status := st; phkResult := hkey 100 |}, w')
    end
|}.

(** Stray slots that hold readable, empty text. *)
Definition quiet : Frame := {|
  beyond_branch := fun _ => Some [];
  beyond_keys := fun _ => hkey 0
|}.

(** Stray slots whose pointer cannot be dereferenced. *)
Definition unmapped : Frame := {|
  beyond_branch := fun _ => None;
  beyond_keys := fun _ => hkey 0
|}.

(** The first stray slot aliases the text [t]; the others are unmapped. *)
Definition aliasing (t : wstring) (k : HKEY) : Frame := {|
  beyond_branch := fun j => if Nat.eqb j 3 then Some t else None;
  beyond_keys := fun _ => k
|}.

(** ** Vocabulary of the statements *)

(** A path that begins with none of the three prefixes. *)
Definition unmatched (path : wstring) : Prop :=
  forall b, In b branch -> firstn 5 path <> b.

(** The prefixes with their roots, in the order of the source. *)
Definition known_prefixes : list (wstring * HKEY) :=
  [(L "HKCU\", HKEY_CURRENT_USER);
   (L "HKLM\", HKEY_LOCAL_MACHINE);
   (L "HKCR\", HKEY_CLASSES_ROOT)].

Definition ev (c : Call) (r : Reply) : Event := {| call := c; reply := r |}.

(** The three ways the guarded block of [RegWrite] can go; [r1], [r2],
    [r3] are the replies to its calls, in order. *)
Inductive write_shape (k : HKEY) (p name : wstring) (type : DWORD)
    (data : list byte) (cb : DWORD) : list Event -> Prop :=
| write_done r1 r2 r3 :
    status r1 = ERROR_SUCCESS -> status r2 = ERROR_SUCCESS ->
    write_shape k p name type data cb
      [ev (RegCreateKeyEx k p REG_OPTION_NON_VOLATILE KEY_WRITE) r1;
       ev (RegSetValueEx (phkResult r1) name type data cb) r2;
       ev (RegCloseKey (phkResult r1)) r3]
| write_set_failed r1 r2 r3 :
    status r1 = ERROR_SUCCESS -> status r2 <> ERROR_SUCCESS ->
    write_shape k p name type data cb
      [ev (RegCreateKeyEx k p REG_OPTION_NON_VOLATILE KEY_WRITE) r1;
       ev (RegSetValueEx (phkResult r1) name type data cb) r2;
       ev (MessageBoxA "failed to RegSetValueEx" "error" MB_ICONERROR) r3]
| write_create_failed r1 r2 :
    status r1 <> ERROR_SUCCESS ->
    write_shape k p name type data cb
      [ev (RegCreateKeyEx k p REG_OPTION_NON_VOLATILE KEY_WRITE) r1;
       ev (MessageBoxA "failed to RegCreateKeyEx" "error" MB_ICONERROR) r2].

(** The two ways of [RegDel(path)]. *)
Inductive delete_key_shape (k : HKEY) (p : wstring) : list Event -> Prop :=
| delete_key_done r1 r2 :
    status r1 = ERROR_SUCCESS ->
    delete_key_shape k p
      [ev (RegDeleteKey k p) r1; ev (RegCloseKey k) r2]
| delete_key_failed r1 r2 :
    status r1 <> ERROR_SUCCESS ->
    delete_key_shape k p
      [ev (RegDeleteKey k p) r1;
       ev (MessageBoxA "failed to RegDeleteKey" "error" MB_ICONERROR) r2].

(** The three ways of [RegDel(path, name)]. *)
Inductive delete_value_shape (k : HKEY) (p name : wstring) : list Event -> Prop :=
| delete_value_done r1 r2 r3 :
    status r1 = ERROR_SUCCESS -> status r2 = ERROR_SUCCESS ->
    delete_value_shape k p name
      [ev (RegOpenKeyEx k p KEY_ALL_ACCESS) r1;
       ev (RegDeleteValue (phkResult r1) name) r2;
       ev (RegCloseKey (phkResult r1)) r3]
| delete_value_failed r1 r2 r3 :
    status r1 = ERROR_SUCCESS -> status r2 <> ERROR_SUCCESS ->
    delete_value_shape k p name
      [ev (RegOpenKeyEx k p KEY_ALL_ACCESS) r1;
       ev (RegDeleteValue (phkResult r1) name) r2;
       ev (MessageBoxA "failed to RegDeleteValue" "error" MB_ICONERROR) r3]
| delete_value_open_failed r1 r2 :
    status r1 <> ERROR_SUCCESS ->
    delete_value_shape k p name
      [ev (RegOpenKeyEx k p KEY_ALL_ACCESS) r1;
       ev (MessageBoxA "failed to RegOpenKeyEx" "error" MB_ICONERROR) r2].

(** The log of a request whose path resolved to root [k] and subkey [p]. *)
Definition request_shape (a : Arch) (r : Request) (k : HKEY) (p : wstring)
  : list Event -> Prop :=
  match r with
  | WriteTextValue _ name value type =>
      write_shape k p name type (wstring_bytes value) (text_cbData a value)
  | WriteNumericValue _ name value type =>
      write_shape k p name type (DWORD_bytes value) sizeof_DWORD
  | DeleteKey _ => delete_key_shape k p
  | DeleteValue _ name => delete_value_shape k p name
  end.

(** A path that names a root and stops there. *)
Definition bare_root : wstring := L "HKCU".

(** A path that names a root and goes on with a slash of the wrong kind. *)
Definition slashed_root : wstring := L "HKLM/Software".

(** The handle was given back: the log has a [RegCloseKey]. *)
Definition released (l : list Event) : bool := existsb is_RegCloseKey l.

(** No tested primitive of the log failed. *)
Definition all_succeeded (l : list Event) : bool :=
  forallb (fun e => negb (failed e)) l.

(** The text each [throw] of the source attaches to the primitive it
    follows. *)
Definition diagnostic (c : Call) : option string :=
  match c with
  | RegCreateKeyEx _ _ _ _ => Some "failed to RegCreateKeyEx"
  | RegSetValueEx _ _ _ _ _ => Some "failed to RegSetValueEx"
  | RegDeleteKey _ _ => Some "failed to RegDeleteKey"
  | RegOpenKeyEx _ _ _ => Some "failed to RegOpenKeyEx"
  | RegDeleteValue _ _ => Some "failed to RegDeleteValue"
  | RegCloseKey _ | MessageBoxA _ _ _ => None
  end%string.

Definition diagnostics : list string :=
  ["failed to RegCreateKeyEx"; "failed to RegSetValueEx";
   "failed to RegDeleteKey"; "failed to RegOpenKeyEx";
   "failed to RegDeleteValue"]%string.

(** Seven-bit text, as [MessageBoxA] shows it unchanged. *)
Definition is_ascii_text (s : string) : bool :=
  forallb (fun c => (N_of_ascii c <? 128)%N) (list_ascii_of_string s).

(** The text a wide string denotes as a C string: its units up to the first
    terminator. *)
Fixpoint c_str (s : wstring) : wstring :=
  match s with
  | [] => []
  | c :: s' => if c =? 0 then [] else c :: c_str s'
  end.

(** A text of [2^31 - 1] units ['A'], four gigabytes with its terminator:
    the shortest one whose byte size does not fit a [DWORD]. *)
Definition huge_text : wstring := repeat 65 (Z.to_nat (2 ^ 31 - 1)).

(** The reply of the scripted system once its script is used up. *)
Definition fine : Reply := {| status := ERROR_SUCCESS; phkResult := hkey 100 |}.

(** Reading a buffer of little-endian bytes back as wide-character units;
    a trailing odd byte is dropped. *)
Fixpoint units_of_bytes (bs : list byte) : wstring :=
  match bs with
  | lo :: hi :: bs' => Z.lor lo (Z.shiftl hi 8) :: units_of_bytes bs'
  | _ => []
  end.

(** A unit that fits the 16 bits of a Windows [wchar_t]. *)
Definition is_wchar (c : wchar_t) : Prop := 0 <= c < 2 ^ 16.

(** An index inside the three-element arrays. *)
Definition inside (j : nat) : Prop := (j < List.length branch)%nat.

(** The stray slots the loop can reach are readable and compare unequal to
    the path. *)
Definition harmless (a : Arch) (f : Frame) (path : wstring) : Prop :=
  forall j, (3 <= j)%nat -> Z.of_nat j < sizeof_branch a ->
    exists t, beyond_branch f j = Some t /\ wcsncmp path t 5 <> 0.

(** * Properties *)

(** ** Wide-string primitives *)

Lemma wcsncmp_prefix (b s : wstring) :
  Forall (fun c => c <> 0) b ->
  wcsncmp s b (List.length b) = 0 <-> firstn (List.length b) s = b.
Proof.
  intros Hb. revert s.
  induction Hb as [| c b Hc Hb IH]; intros s.
  - simpl. split; reflexivity.
  - destruct s as [| x s]; cbn [wcsncmp firstn List.length peek hd tl].
    + destruct (0 =? c) eqn:E.
      * apply Z.eqb_eq in E. congruence.
      * split; intros H; [destruct (0 <? c) |]; discriminate H.
    + destruct (x =? c) eqn:E.
      * apply Z.eqb_eq in E. subst x.
        destruct (c =? 0) eqn:E0; [apply Z.eqb_eq in E0; contradiction |].
        rewrite IH. split; intros H; [now rewrite H | now injection H].
      * apply Z.eqb_neq in E.
        split; intros H; [destruct (x <? c); discriminate H | injection H; congruence].
Qed.

Lemma branch_nonzero (b : wstring) :
  In b branch -> List.length b = 5%nat /\ Forall (fun c => c <> 0) b.
Proof.
  intros [H | [H | [H | []]]]; subst b; (split; [reflexivity |]);
    repeat constructor; discriminate.
Qed.

(** On the three prefixes, [wcsncmp(path, b, 5) == 0] is equality of the
    first five units. *)
Lemma branch_match (b path : wstring) :
  In b branch -> wcsncmp path b 5 = 0 <-> firstn 5 path = b.
Proof.
  intros Hin. destruct (branch_nonzero b Hin) as [Hl Hnz].
  rewrite <- Hl. now apply wcsncmp_prefix.
Qed.

Lemma wcslen_nonneg (s : wstring) : 0 <= wcslen s.
Proof.
  induction s as [| c s IH]; cbn [wcslen]; [lia | destruct (c =? 0); lia].
Qed.

Lemma wcslen_length (s : wstring) :
  Forall (fun c => c <> 0) s -> wcslen s = Z.of_nat (List.length s).
Proof.
  induction 1 as [| c s Hc _ IH]; [reflexivity |].
  cbn [wcslen List.length]. apply Z.eqb_neq in Hc. rewrite Hc, IH. lia.
Qed.

Lemma wcslen_repeat (c : wchar_t) (n : nat) :
  c <> 0 -> wcslen (repeat c n) = Z.of_nat n.
Proof.
  intros Hc. rewrite wcslen_length.
  - now rewrite repeat_length.
  - apply Forall_forall. intros x Hx. apply repeat_spec in Hx. now subst.
Qed.

(** ** The prefix loop *)

Lemma resolve_loop_hit f path j n b :
  read_branch f j = Some b -> wcsncmp path b 5 = 0 ->
  resolve_loop f path j (S n) = ([j], Resolved (read_keys f j) (advance 5 path)).
Proof.
  intros Hr Hc. cbn [resolve_loop]. now rewrite Hr, Hc.
Qed.

Lemma resolve_loop_miss f path j n b :
  read_branch f j = Some b -> wcsncmp path b 5 <> 0 ->
  resolve_loop f path j (S n) =
    (j :: fst (resolve_loop f path (S j) n), snd (resolve_loop f path (S j) n)).
Proof.
  intros Hr Hc. cbn [resolve_loop]. rewrite Hr.
  apply Z.eqb_neq in Hc. rewrite Hc.
  now destruct (resolve_loop f path (S j) n).
Qed.

Lemma resolve_loop_fault f path j n :
  read_branch f j = None ->
  resolve_loop f path j (S n) = ([j], AccessViolation j).
Proof.
  intros Hr. cbn [resolve_loop]. now rewrite Hr.
Qed.

Lemma read_branch_outside f j :
  (3 <= j)%nat -> read_branch f j = beyond_branch f j.
Proof.
  intros H. unfold read_branch.
  destruct (nth_error branch j) eqn:E; [| reflexivity].
  assert (Hlt : (j < List.length branch)%nat)
    by (apply nth_error_Some; congruence).
  simpl in Hlt. lia.
Qed.

(** The loop always has at least four iterations. *)
Lemma loop_bound (a : Arch) :
  exists n, Z.to_nat (sizeof_branch a) = S (S (S (S n))) /\
            Z.of_nat (S (S (S (S n)))) = sizeof_branch a.
Proof.
  destruct a; [exists 8%nat | exists 20%nat]; split; reflexivity.
Qed.

Lemma unmatched_miss path b :
  unmatched path -> In b branch -> wcsncmp path b 5 <> 0.
Proof.
  intros Hu Hin Hc. apply (Hu b Hin). now apply branch_match.
Qed.

(** A path that carries one of the prefixes stops the loop at that prefix,
    inside the array. *)
Lemma resolve_trace_matched a f path i b k :
  nth_error branch i = Some b -> nth_error keys i = Some k ->
  firstn 5 path = b ->
  resolve_trace a f path = (seq 0 (S i), Resolved k (advance 5 path)).
Proof.
  intros Hb Hk Hp.
  destruct (loop_bound a) as [n [Hn _]].
  unfold resolve_trace. rewrite Hn.
  assert (Hhit : wcsncmp path b 5 = 0)
    by (apply branch_match; [eapply nth_error_In; eassumption | assumption]).
  assert (Hmiss : forall b', In b' branch -> b' <> b -> wcsncmp path b' 5 <> 0).
  { intros b' Hin Hne Hc. apply branch_match in Hc; [congruence | assumption]. }
  destruct i as [| [| [| i]]]; cbn in Hb, Hk.
  - injection Hb as <-. injection Hk as <-.
    now rewrite (resolve_loop_hit f path 0 _ (L "HKCU\")).
  - injection Hb as <-. injection Hk as <-.
    rewrite (resolve_loop_miss f path 0 _ (L "HKCU\"));
      [| reflexivity | apply Hmiss; [simpl; tauto | discriminate]].
    now rewrite (resolve_loop_hit f path 1 _ (L "HKLM\")).
  - injection Hb as <-. injection Hk as <-.
    rewrite (resolve_loop_miss f path 0 _ (L "HKCU\"));
      [| reflexivity | apply Hmiss; [simpl; tauto | discriminate]].
    rewrite (resolve_loop_miss f path 1 _ (L "HKLM\"));
      [| reflexivity | apply Hmiss; [simpl; tauto | discriminate]].
    now rewrite (resolve_loop_hit f path 2 _ (L "HKCR\")).
  - destruct i; discriminate.
Qed.

(** Without a prefix the three array elements are passed over and the loop
    goes on from index 3. *)
Lemma resolve_loop_unmatched f path n :
  unmatched path ->
  resolve_loop f path 0 (S (S (S n))) =
    (0 :: 1 :: 2 :: fst (resolve_loop f path 3 n),
     snd (resolve_loop f path 3 n))%nat.
Proof.
  intros Hu.
  rewrite (resolve_loop_miss f path 0 _ (L "HKCU\"));
    [| reflexivity | apply unmatched_miss; [assumption | simpl; tauto]].
  rewrite (resolve_loop_miss f path 1 _ (L "HKLM\"));
    [| reflexivity | apply unmatched_miss; [assumption | simpl; tauto]].
  rewrite (resolve_loop_miss f path 2 _ (L "HKCR\"));
    [| reflexivity | apply unmatched_miss; [assumption | simpl; tauto]].
  reflexivity.
Qed.

(** The indices read are consecutive from the start index and stay below
    the bound. *)
Lemma resolve_loop_indices f path n : forall j,
  exists m, (m <= n)%nat /\ fst (resolve_loop f path j n) = seq j m.
Proof.
  induction n as [| n IH]; intros j.
  - exists 0%nat. split; [lia | reflexivity].
  - cbn [resolve_loop]. destruct (read_branch f j) as [b |].
    + destruct (wcsncmp path b 5 =? 0).
      * exists 1%nat. split; [lia | reflexivity].
      * destruct (IH (S j)) as [m [Hm He]].
        destruct (resolve_loop f path (S j) n) as [t r]. cbn in He |- *.
        exists (S m). split; [lia | now rewrite He].
    + exists 1%nat. split; [lia | reflexivity].
Qed.

(** When every remaining slot is readable and compares unequal, the loop
    runs out of iterations and leaves the default root in place. *)
Lemma resolve_loop_exhausts f path n : forall j,
  (forall i, (j <= i < j + n)%nat ->
     exists t, read_branch f i = Some t /\ wcsncmp path t 5 <> 0) ->
  resolve_loop f path j n = (seq j n, Resolved HKEY_CURRENT_USER path).
Proof.
  induction n as [| n IH]; intros j H; [reflexivity |].
  destruct (H j) as [t [Ht Hc]]; [lia |].
  rewrite (resolve_loop_miss f path j n t Ht Hc).
  rewrite IH; [reflexivity |].
  intros i Hi. apply H. lia.
Qed.

(** ** The guarded blocks *)

Section Blocks.

Variable os : OS.

Ltac step_call :=
  match goal with
  | |- context [respond os ?c ?w] =>
      let r := fresh "r" in
      let w' := fresh "w" in
      let E := fresh "E" in
      destruct (respond os c w) as [r w'] eqn:E; cbn [now log status]
  end.

Ltac step_test :=
  match goal with
  | |- context [status ?r =? ERROR_SUCCESS] =>
      let E := fresh "E" in
      destruct (status r =? ERROR_SUCCESS) eqn:E;
      [apply Z.eqb_eq in E | apply Z.eqb_neq in E]
  end.

Ltac open_block :=
  unfold try_catch, write_block, delete_key_block, delete_value_block,
    report, bind, invoke, throw, ret.

Ltac close_shape :=
  eexists; split; [reflexivity |]; cbn [log];
  rewrite <- ?app_assoc; cbn [app]; eexists; split; [reflexivity |].

Lemma guarded_write k p name type data cb (s : State os) :
  exists s', try_catch os (write_block os k p name type data cb) (report os) s
             = (Val tt, s') /\
    exists l, log s' = log s ++ l /\ write_shape k p name type data cb l.
Proof.
  open_block. step_call. step_test.
  - step_call. step_test.
    + step_call. close_shape. now apply write_done.
    + step_call. close_shape. now apply write_set_failed.
  - step_call. close_shape. now apply write_create_failed.
Qed.

Lemma guarded_delete_key k p (s : State os) :
  exists s', try_catch os (delete_key_block os k p) (report os) s = (Val tt, s') /\
    exists l, log s' = log s ++ l /\ delete_key_shape k p l.
Proof.
  open_block. step_call. step_test.
  - step_call. close_shape. now apply delete_key_done.
  - step_call. close_shape. now apply delete_key_failed.
Qed.

Lemma guarded_delete_value k p name (s : State os) :
  exists s', try_catch os (delete_value_block os k p name) (report os) s
             = (Val tt, s') /\
    exists l, log s' = log s ++ l /\ delete_value_shape k p name l.
Proof.
  open_block. step_call. step_test.
  - step_call. step_test.
    + step_call. close_shape. now apply delete_value_done.
    + step_call. close_shape. now apply delete_value_failed.
  - step_call. close_shape. now apply delete_value_open_failed.
Qed.

(** A request whose path resolves returns, and its log has one of the
    shapes of its guarded block. *)
Lemma perform_resolved a f r k p (w : world os) :
  resolve a f (request_path r) = Resolved k p ->
  outcome_of (perform os a f r) w = Returned /\
  request_shape a r k p (log_of (perform os a f r) w).
Proof.
  intros Hr. unfold outcome_of, log_of.
  destruct r as [path name value type | path name value type | path | path name];
    cbn [perform request_path request_shape] in Hr |- *;
    unfold RegWrite_text, RegWrite_num, RegDel_key, RegDel_value, operation;
    rewrite Hr.
  - destruct (guarded_write k p name type (wstring_bytes value)
                (text_cbData a value) (start os w)) as [s' [-> [l [Hl Hs]]]].
    cbn [fst snd]. rewrite Hl. now split.
  - destruct (guarded_write k p name type (DWORD_bytes value)
                sizeof_DWORD (start os w)) as [s' [-> [l [Hl Hs]]]].
    cbn [fst snd]. rewrite Hl. now split.
  - destruct (guarded_delete_key k p (start os w)) as [s' [-> [l [Hl Hs]]]].
    cbn [fst snd]. rewrite Hl. now split.
  - destruct (guarded_delete_value k p name (start os w)) as [s' [-> [l [Hl Hs]]]].
    cbn [fst snd]. rewrite Hl. now split.
Qed.

(** A request whose prefix loop faults issues no call at all. *)
Lemma perform_faulted a f r j (w : world os) :
  resolve a f (request_path r) = AccessViolation j ->
  outcome_of (perform os a f r) w = Faulted j /\
  log_of (perform os a f r) w = [].
Proof.
  intros Hr. unfold outcome_of, log_of.
  destruct r; cbn [perform request_path] in Hr |- *;
    unfold RegWrite_text, RegWrite_num, RegDel_key, RegDel_value, operation;
    rewrite Hr; split; reflexivity.
Qed.

End Blocks.

(** ** Root resolution: the claims *)

Lemma known_prefix_index b k :
  In (b, k) known_prefixes ->
  exists i, nth_error branch i = Some b /\ nth_error keys i = Some k.
Proof.
  intros [H | [H | [H | []]]]; injection H as <- <-;
    [exists 0%nat | exists 1%nat | exists 2%nat]; split; reflexivity.
Qed.

Lemma resolve_matched a f path b k :
  In (b, k) known_prefixes -> firstn 5 path = b ->
  resolve a f path = Resolved k (skipn 5 path) /\
  Forall (fun j => nth_error branch j <> None) (indices_read a f path).
Proof.
  intros Hin Hp. destruct (known_prefix_index b k Hin) as [i [Hb Hk]].
  unfold resolve, indices_read.
  rewrite (resolve_trace_matched a f path i b k Hb Hk Hp). cbn [fst snd].
  split; [reflexivity |].
  apply Forall_forall. intros j Hj. apply in_seq in Hj.
  apply nth_error_Some.
  assert (i < List.length branch)%nat by (apply nth_error_Some; congruence).
  lia.
Qed.

(** C1. A path whose first five units are literally ["HKCU\"], ["HKLM\"] or
    ["HKCR\"] resolves to the root listed with that prefix, and each of the
    four operations addresses its first registry call to that root with the
    path stripped of its first five units; the loop reads [branch] inside
    its three elements only. *)
Theorem known_prefix_selects_root_and_strips
    (os : OS) (a : Arch) (f : Frame) (w : world os)
    (path name value : wstring) (number type : DWORD)
    (b : wstring) (k : HKEY) :
  In (b, k) known_prefixes ->
  firstn 5 path = b ->
  resolve a f path = Resolved k (skipn 5 path) /\
  Forall (fun j => nth_error branch j <> None) (indices_read a f path) /\
  hd_error (calls (log_of (RegWrite_text os a f path name value type) w)) =
    Some (RegCreateKeyEx k (skipn 5 path) REG_OPTION_NON_VOLATILE KEY_WRITE) /\
  hd_error (calls (log_of (RegWrite_num os a f path name number type) w)) =
    Some (RegCreateKeyEx k (skipn 5 path) REG_OPTION_NON_VOLATILE KEY_WRITE) /\
  hd_error (calls (log_of (RegDel_key os a f path) w)) =
    Some (RegDeleteKey k (skipn 5 path)) /\
  hd_error (calls (log_of (RegDel_value os a f path name) w)) =
    Some (RegOpenKeyEx k (skipn 5 path) KEY_ALL_ACCESS).
Proof.
  intros Hin Hp.
  destruct (resolve_matched a f path b k Hin Hp) as [Hr Hi].
  split; [assumption |]. split; [assumption |].
  repeat split.
  - destruct (perform_resolved os a f (WriteTextValue path name value type)
                k (skipn 5 path) w Hr) as [_ Hs].
    cbn [perform request_shape] in Hs. destruct Hs; reflexivity.
  - destruct (perform_resolved os a f (WriteNumericValue path name number type)
                k (skipn 5 path) w Hr) as [_ Hs].
    cbn [perform request_shape] in Hs. destruct Hs; reflexivity.
  - destruct (perform_resolved os a f (DeleteKey path)
                k (skipn 5 path) w Hr) as [_ Hs].
    cbn [perform request_shape] in Hs. destruct Hs; reflexivity.
  - destruct (perform_resolved os a f (DeleteValue path name)
                k (skipn 5 path) w Hr) as [_ Hs].
    cbn [perform request_shape] in Hs. destruct Hs; reflexivity.
Qed.

Lemma known_prefix_witness :
  resolve Win64 unmapped (L "HKLM\Software\Test")
    = Resolved HKEY_LOCAL_MACHINE (L "Software\Test") /\
  hd_error (calls (log_of
     (RegDel_value scripted Win64 unmapped (L "HKLM\Software\Test") (L "Name")) []))
    = Some (RegOpenKeyEx HKEY_LOCAL_MACHINE (L "Software\Test") KEY_ALL_ACCESS).
Proof.
  pose proof (known_prefix_selects_root_and_strips scripted Win64 unmapped []
                (L "HKLM\Software\Test") (L "Name") (L "Hello") 7 1
                (L "HKLM\") HKEY_LOCAL_MACHINE
                (or_intror (or_introl eq_refl)) eq_refl) as H.
  split; [exact (proj1 H) | exact (proj2 (proj2 (proj2 (proj2 (proj2 H)))))].
Defined.

Lemma unmatched_example : unmatched (L "Software\Test").
Proof.
  intros b [H | [H | [H | []]]]; subst b; discriminate.
Defined.

(** Without a prefix the loop always reads [branch[3]]. *)
Lemma unmatched_reaches_index_3 a f path :
  unmatched path ->
  exists n,
    resolve_trace a f path =
      (0 :: 1 :: 2 :: fst (resolve_loop f path 3 (S n)),
       snd (resolve_loop f path 3 (S n)))%nat /\
    Z.of_nat (S (S (S (S n)))) = sizeof_branch a.
Proof.
  intros Hu. destruct (loop_bound a) as [n [Hn Hz]]. exists n.
  unfold resolve_trace. rewrite Hn. split; [| assumption].
  now apply resolve_loop_unmatched.
Qed.

(** Where the loop stops: it reads consecutive indices, passes only over
    slots that are readable and compare unequal, and ends before its bound
    only on a slot that is unreadable or compares equal. *)
Lemma resolve_loop_stops f path n : forall j,
  exists m, (m <= n)%nat /\ fst (resolve_loop f path j n) = seq j m /\
    (forall i, (j <= i)%nat -> (i + 1 < j + m)%nat ->
       exists t, read_branch f i = Some t /\ wcsncmp path t 5 <> 0) /\
    ((m < n)%nat ->
       (1 <= m)%nat /\
       (read_branch f (j + m - 1) = None \/
        exists t, read_branch f (j + m - 1) = Some t /\ wcsncmp path t 5 = 0)).
Proof.
  induction n as [| n IH]; intros j.
  - exists 0%nat. split; [lia |]. split; [reflexivity |].
    split; [intros i H1 H2; lia | intros H; lia].
  - cbn [resolve_loop]. destruct (read_branch f j) as [b |] eqn:Hb.
    + destruct (wcsncmp path b 5 =? 0) eqn:Hc.
      * apply Z.eqb_eq in Hc. exists 1%nat. split; [lia |].
        split; [reflexivity |]. split; [intros i H1 H2; lia |].
        intros _. split; [lia |]. right. exists b.
        replace (j + 1 - 1)%nat with j by lia. now split.
      * apply Z.eqb_neq in Hc.
        destruct (IH (S j)) as [m [Hm [He [Hpass Hstop]]]].
        destruct (resolve_loop f path (S j) n) as [t r]. cbn [fst] in He |- *.
        exists (S m). split; [lia |]. split; [now rewrite He |]. split.
        -- intros i H1 H2. destruct (Nat.eq_dec i j) as [-> | Hne].
           ++ now exists b.
           ++ apply Hpass; lia.
        -- intros Hlt. destruct Hstop as [H1 Hs]; [lia |].
           split; [lia |].
           replace (j + S m - 1)%nat with (S j + m - 1)%nat by lia. exact Hs.
    + exists 1%nat. split; [lia |]. split; [reflexivity |].
      split; [intros i H1 H2; lia |].
      intros _. split; [lia |]. left.
      replace (j + 1 - 1)%nat with j by lia. exact Hb.
Qed.

(** C3, as the code has it.  The loop bound is [sizeof(branch)], three
    times the size of a pointer (12 or 24) and not the element count 3.
    For every path without a known prefix the loop therefore reads
    [branch[3]], beyond the array.  The indices it reads are 0 to [m - 1]
    for some [m] from 4 to [sizeof(branch)]: it passes over a stray slot
    only when the slot is readable and compares unequal, and it stops
    before [sizeof(branch) - 1] only on a stray slot that is unreadable or
    compares equal.  When every stray slot is readable and compares
    unequal it reads every index up to [sizeof(branch) - 1] and ends with
    the default root. *)
Theorem loop_bound_is_byte_size_and_overruns
    (a : Arch) (f : Frame) (path : wstring) :
  unmatched path ->
  sizeof_branch a = 3 * sizeof_ptr a /\
  Z.of_nat (List.length branch) < sizeof_branch a /\
  nth_error branch 3 = None /\
  (exists m, (4 <= m)%nat /\ Z.of_nat m <= sizeof_branch a /\
             indices_read a f path = seq 0 m /\
             (forall j, (3 <= j)%nat -> (j + 1 < m)%nat ->
                exists t, beyond_branch f j = Some t /\ wcsncmp path t 5 <> 0) /\
             (Z.of_nat m < sizeof_branch a ->
                beyond_branch f (m - 1) = None \/
                exists t, beyond_branch f (m - 1) = Some t /\
                          wcsncmp path t 5 = 0)) /\
  ((forall j, (3 <= j)%nat -> Z.of_nat j < sizeof_branch a ->
      exists t, beyond_branch f j = Some t /\ wcsncmp path t 5 <> 0) ->
   indices_read a f path = seq 0 (Z.to_nat (sizeof_branch a)) /\
   resolve a f path = Resolved HKEY_CURRENT_USER path).
Proof.
  intros Hu.
  split; [reflexivity |].
  split; [destruct a; reflexivity |].
  split; [reflexivity |].
  destruct (unmatched_reaches_index_3 a f path Hu) as [n [Ht Hz]].
  split.
  - destruct (resolve_loop_stops f path (S n) 3) as [m [Hm [Hs [Hpass Hstop]]]].
    assert (1 <= m)%nat.
    { destruct m; [| lia]. cbn [resolve_loop] in Hs.
      destruct (read_branch f 3) as [t |]; [| discriminate Hs].
      destruct (wcsncmp path t 5 =? 0); [discriminate Hs |].
      destruct (resolve_loop f path 4 n); discriminate Hs. }
    exists (3 + m)%nat. split; [lia |]. split; [lia |]. split.
    + unfold indices_read. rewrite Ht. cbn [fst]. rewrite Hs.
      now rewrite seq_app.
    + split.
      * intros j H3 Hj. rewrite <- read_branch_outside by assumption.
        apply Hpass; lia.
      * intros Hlt. destruct Hstop as [_ Hs']; [lia |].
        rewrite read_branch_outside in Hs' by lia. exact Hs'.
  - intros Hq. unfold indices_read, resolve. rewrite Ht. cbn [fst snd].
    rewrite resolve_loop_exhausts.
    + cbn [fst snd]. split; [| reflexivity].
      rewrite <- Hz, Nat2Z.id. reflexivity.
    + intros i Hi. rewrite read_branch_outside by lia.
      apply Hq; lia.
Qed.

(** C3, refuted as stated.  [L"Software\\Test"] carries no prefix and the
    bound on the 64-bit target is 24; with an unreadable pointer in the
    first stray slot, or with one that aliases the path, the loop reads
    indices 0 to 3 and never reaches [branch[4]], let alone
    [branch[23]]. *)
Lemma overrun_stops_at_first_stray_slot :
  unmatched (L "Software\Test") /\
  sizeof_branch Win64 = 24 /\
  indices_read Win64 unmapped (L "Software\Test") = [0; 1; 2; 3]%nat /\
  indices_read Win64 (aliasing (L "Software\Test") HKEY_LOCAL_MACHINE)
    (L "Software\Test") = [0; 1; 2; 3]%nat /\
  ~ In 4%nat (indices_read Win64 unmapped (L "Software\Test")) /\
  ~ In 23%nat (indices_read Win64 unmapped (L "Software\Test")) /\
  indices_read Win64 unmapped (L "Software\Test")
    <> seq 0 (Z.to_nat (sizeof_branch Win64)).
Proof.
  split; [exact unmatched_example |].
  split; [reflexivity |]. split; [reflexivity |]. split; [reflexivity |].
  split; [vm_compute; intuition discriminate |].
  split; [vm_compute; intuition discriminate |].
  vm_compute. discriminate.
Qed.

Lemma loop_overrun_witness :
  indices_read Win64 quiet (L "Software\Test") = seq 0 24 /\
  indices_read Win32 unmapped (L "Software\Test") = seq 0 4.
Proof.
  split.
  - apply (loop_bound_is_byte_size_and_overruns Win64 quiet (L "Software\Test")
             unmatched_example).
    intros j _ _. exists []. split; [reflexivity | discriminate].
  - reflexivity.
Defined.

(** What the loop does at index 3 decides the fate of every path without a
    prefix: a fault when the stray pointer is unreadable, a stray root and a
    path cut by five units when the text behind it happens to compare
    equal (stated for paths of at least five units). *)
Lemma unmatched_outcome_follows_frame a f path :
  unmatched path ->
  (beyond_branch f 3 = None -> resolve a f path = AccessViolation 3) /\
  (forall t, 5 <= wcslen path ->
     beyond_branch f 3 = Some t -> wcsncmp path t 5 = 0 ->
     resolve a f path = Resolved (beyond_keys f 3) (skipn 5 path)).
Proof.
  intros Hu. destruct (unmatched_reaches_index_3 a f path Hu) as [n [Ht _]].
  unfold resolve. rewrite Ht. cbn [snd]. split.
  - intros Hb. rewrite resolve_loop_fault; [reflexivity |].
    now rewrite read_branch_outside.
  - intros t _ Hb Hc.
    rewrite (resolve_loop_hit f path 3 n t); [reflexivity | | assumption].
    now rewrite read_branch_outside.
Qed.

(** C2, evaluated.  [L"Software\\Test"] carries no prefix.  Where the slot
    after [branch] is not a readable pointer, resolution faults at index 3
    and no operation reaches the registry; where it aliases the path, the
    root is the stray [keys[3]] and the path loses five units.  In neither
    run is the path taken whole under [HKEY_CURRENT_USER]. *)
Theorem unmatched_path_reads_beyond_branch :
  unmatched (L "Software\Test") /\
  (forall a, resolve a unmapped (L "Software\Test") = AccessViolation 3) /\
  (forall a r, request_path r = L "Software\Test" ->
     outcome_of (perform scripted a unmapped r) [] = Faulted 3 /\
     log_of (perform scripted a unmapped r) [] = []) /\
  (forall a, resolve a (aliasing (L "Software\Test") HKEY_LOCAL_MACHINE)
               (L "Software\Test")
             = Resolved HKEY_LOCAL_MACHINE (L "are\Test")) /\
  (forall a, calls (log_of (RegDel_key scripted a
                      (aliasing (L "Software\Test") HKEY_LOCAL_MACHINE)
                      (L "Software\Test")) [])
             = [RegDeleteKey HKEY_LOCAL_MACHINE (L "are\Test");
                RegCloseKey HKEY_LOCAL_MACHINE]).
Proof.
  split; [exact unmatched_example |].
  split; [intros a; destruct a; reflexivity |].
  split.
  - intros a r Hr. apply perform_faulted. rewrite Hr. destruct a; reflexivity.
  - split; intros a; destruct a; reflexivity.
Qed.

Lemma bare_root_unmatched : unmatched bare_root.
Proof.
  intros b [H | [H | [H | []]]]; subst b; discriminate.
Qed.

Lemma slashed_root_unmatched : unmatched slashed_root.
Proof.
  intros b [H | [H | [H | []]]]; subst b; discriminate.
Qed.

(** A root name followed by anything but a backslash matches no prefix. *)
Lemma root_without_backslash_unmatched (c : wchar_t) (rest : wstring) :
  c <> 92 ->
  unmatched (L "HKCU" ++ c :: rest) /\
  unmatched (L "HKLM" ++ c :: rest) /\
  unmatched (L "HKCR" ++ c :: rest).
Proof.
  intros Hc. repeat split; intros b [H | [H | [H | []]]]; subst b; cbn;
    intros E; injection E; intros; congruence.
Qed.

(** C10, evaluated.  [L"HKCU"] and [L"HKLM/Software"] match none of the
    three prefixes, so the loop runs on to index 3, outside [branch]: with
    an unreadable slot there both fault before any registry call, and with
    a slot aliasing the path [L"HKLM/Software"] loses its first five units
    and lands under the stray root. *)
Theorem root_without_backslash_reads_beyond_branch :
  unmatched bare_root /\ unmatched slashed_root /\
  (forall a, resolve a unmapped bare_root = AccessViolation 3) /\
  (forall a, resolve a unmapped slashed_root = AccessViolation 3) /\
  (forall a r, request_path r = bare_root \/ request_path r = slashed_root ->
     outcome_of (perform scripted a unmapped r) [] = Faulted 3 /\
     log_of (perform scripted a unmapped r) [] = []) /\
  (forall a, resolve a (aliasing slashed_root HKEY_CLASSES_ROOT) slashed_root
             = Resolved HKEY_CLASSES_ROOT (L "Software")) /\
  (forall a, resolve a quiet slashed_root
             = Resolved HKEY_CURRENT_USER slashed_root).
Proof.
  split; [exact bare_root_unmatched |].
  split; [exact slashed_root_unmatched |].
  split; [intros a; destruct a; reflexivity |].
  split; [intros a; destruct a; reflexivity |].
  split.
  - intros a r [Hr | Hr]; apply perform_faulted; rewrite Hr;
      destruct a; reflexivity.
  - split; intros a; destruct a; reflexivity.
Qed.

(** ** Failure handling: the claims *)

Lemma failed_ev c r :
  failed (ev c r) = checked c && negb (status r =? ERROR_SUCCESS).
Proof. reflexivity. Qed.

Ltac settle_statuses :=
  repeat match goal with
         | H : status _ = ERROR_SUCCESS |- _ => apply Z.eqb_eq in H
         | H : status _ <> ERROR_SUCCESS |- _ => apply Z.eqb_neq in H
         end;
  cbn [released all_succeeded existsb forallb is_RegCloseKey is_MessageBoxA
       call ev checked andb orb negb app filter List.length] in *;
  rewrite ?failed_ev in *;
  cbn [checked andb orb negb] in *;
  repeat match goal with
         | H : (status _ =? ERROR_SUCCESS) = _ |- _ => rewrite H in *
         end;
  cbn [andb orb negb] in *.

(** Whatever the path, a call either faults in the prefix loop, before any
    call to the system, or returns with a log of one of the shapes. *)
Lemma perform_cases (os : OS) a f r (w : world os) :
  (exists j, outcome_of (perform os a f r) w = Faulted j /\
             log_of (perform os a f r) w = []) \/
  (exists k p, resolve a f (request_path r) = Resolved k p /\
               outcome_of (perform os a f r) w = Returned /\
               request_shape a r k p (log_of (perform os a f r) w)).
Proof.
  destruct (resolve a f (request_path r)) as [k p | j] eqn:Hr.
  - right. exists k, p. split; [reflexivity |]. now apply perform_resolved.
  - left. exists j. now apply perform_faulted.
Qed.

(** No [std::runtime_error] leaves any of the four operations. *)
Lemma perform_never_escapes (os : OS) a f r (w : world os) what :
  outcome_of (perform os a f r) w <> Escaped what.
Proof.
  destruct (perform_cases os a f r w) as [[j [Ho _]] | [k [p [_ [Ho _]]]]];
    rewrite Ho; discriminate.
Qed.

(** C4. When a registry primitive fails inside any of the four operations,
    the call still returns: the failing primitive is the last registry call
    of the log, the message box with the diagnostic of that primitive
    follows it, and no exception leaves the call.  The outcome the caller
    sees is [Returned] whatever system the same request runs against, so it
    tells nothing about success or failure. *)
Theorem primitive_failure_is_caught_and_reported
    (os : OS) (a : Arch) (f : Frame) (r : Request) (w : world os) :
  existsb failed (log_of (perform os a f r) w) = true ->
  outcome_of (perform os a f r) w = Returned /\
  (forall what, outcome_of (perform os a f r) w <> Escaped what) /\
  (exists l e text rb,
     log_of (perform os a f r) w =
       l ++ [e; ev (MessageBoxA text "error" MB_ICONERROR) rb] /\
     failed e = true /\ diagnostic (call e) = Some text /\
     existsb failed l = false) /\
  (forall (os' : OS) (w' : world os'),
     outcome_of (perform os' a f r) w' = Returned).
Proof.
  intros Hf.
  destruct (perform_cases os a f r w) as [[j [_ Hl]] | [k [p [Hr [Ho Hs]]]]].
  - rewrite Hl in Hf. discriminate Hf.
  - split; [assumption |].
    split; [intros what; apply perform_never_escapes |].
    split.
    + destruct r; cbn [request_shape] in Hs; destruct Hs;
        try (exfalso; settle_statuses; discriminate Hf).
      * eexists [_], _, _, _. split; [reflexivity |]. settle_statuses. auto.
      * eexists [], _, _, _. split; [reflexivity |]. settle_statuses. auto.
      * eexists [_], _, _, _. split; [reflexivity |]. settle_statuses. auto.
      * eexists [], _, _, _. split; [reflexivity |]. settle_statuses. auto.
      * eexists [], _, _, _. split; [reflexivity |]. settle_statuses. auto.
      * eexists [_], _, _, _. split; [reflexivity |]. settle_statuses. auto.
      * eexists [], _, _, _. split; [reflexivity |]. settle_statuses. auto.
    + intros os' w'.
      apply (perform_resolved os' a f r k p w' Hr).
Qed.

Lemma primitive_failure_witness :
  outcome_of (perform scripted Win32 unmapped
                (WriteTextValue (L "HKCU\Software\Test") (L "Name") (L "Hello") 1))
             [0; 5] = Returned /\
  outcome_of (perform scripted Win32 unmapped
                (WriteTextValue (L "HKCU\Software\Test") (L "Name") (L "Hello") 1))
             [] = Returned.
Proof.
  pose proof (primitive_failure_is_caught_and_reported scripted Win32 unmapped
                (WriteTextValue (L "HKCU\Software\Test") (L "Name") (L "Hello") 1)
                [0; 5] eq_refl) as H.
  split; [exact (proj1 H) | exact (proj2 (proj2 (proj2 H)) scripted [])].
Defined.

(** The log of either [RegWrite] overload, once the path has resolved. *)
Lemma write_released_iff k p name type data cb l :
  write_shape k p name type data cb l ->
  released l = all_succeeded l /\
  (released l = true ->
     exists r1 r2 r3,
       l = [ev (RegCreateKeyEx k p REG_OPTION_NON_VOLATILE KEY_WRITE) r1;
            ev (RegSetValueEx (phkResult r1) name type data cb) r2;
            ev (RegCloseKey (phkResult r1)) r3]) /\
  (forall e h n t d c,
     In e l -> call e = RegSetValueEx h n t d c -> returned e <> ERROR_SUCCESS ->
     released l = false /\
     forall h', ~ In (RegCloseKey h') (calls l)).
Proof.
  intros Hs. destruct Hs as [r1 r2 r3 H1 H2 | r1 r2 r3 H1 H2 | r1 r2 H1].
  - split; [settle_statuses; reflexivity |]. split.
    + intros _. now exists r1, r2, r3.
    + intros e h n t d c Hin Hc Hst. exfalso.
      destruct Hin as [<- | [<- | [<- | []]]]; try discriminate Hc.
      now apply Hst.
  - split; [settle_statuses; reflexivity |]. split.
    + intros H. discriminate H.
    + intros e h n t d c _ _ _. split; [reflexivity |].
      intros h' [H | [H | [H | []]]]; discriminate H.
  - split; [settle_statuses; reflexivity |]. split.
    + intros H. discriminate H.
    + intros e h n t d c _ _ _. split; [reflexivity |].
      intros h' [H | [H | []]]; discriminate H.
Qed.

(** C7. In both [RegWrite] overloads, once the prefix loop has produced a
    root, [RegCloseKey] is called exactly when no tested primitive of the
    call failed, and then on the handle the creation wrote; when the log
    has a [RegSetValueEx] that failed, the creation before it succeeded and
    no [RegCloseKey] is in the log at all, so the handle the creation
    opened stays open on return. *)
Theorem write_closes_handle_only_on_success
    (os : OS) (a : Arch) (f : Frame) (w : world os)
    (path name value : wstring) (number type : DWORD) (k : HKEY) (p : wstring) :
  resolve a f path = Resolved k p ->
  let text_log := log_of (RegWrite_text os a f path name value type) w in
  let num_log := log_of (RegWrite_num os a f path name number type) w in
  released text_log = all_succeeded text_log /\
  released num_log = all_succeeded num_log /\
  (released text_log = true ->
     exists r1 r2 r3,
       text_log =
         [ev (RegCreateKeyEx k p REG_OPTION_NON_VOLATILE KEY_WRITE) r1;
          ev (RegSetValueEx (phkResult r1) name type (wstring_bytes value)
                (text_cbData a value)) r2;
          ev (RegCloseKey (phkResult r1)) r3]) /\
  (released num_log = true ->
     exists r1 r2 r3,
       num_log =
         [ev (RegCreateKeyEx k p REG_OPTION_NON_VOLATILE KEY_WRITE) r1;
          ev (RegSetValueEx (phkResult r1) name type (DWORD_bytes number)
                sizeof_DWORD) r2;
          ev (RegCloseKey (phkResult r1)) r3]) /\
  (forall e h n t d c,
     In e text_log -> call e = RegSetValueEx h n t d c ->
     returned e <> ERROR_SUCCESS ->
     released text_log = false /\
     hd_error (calls text_log)
       = Some (RegCreateKeyEx k p REG_OPTION_NON_VOLATILE KEY_WRITE) /\
     forall h', ~ In (RegCloseKey h') (calls text_log)) /\
  (forall e h n t d c,
     In e num_log -> call e = RegSetValueEx h n t d c ->
     returned e <> ERROR_SUCCESS ->
     released num_log = false /\
     hd_error (calls num_log)
       = Some (RegCreateKeyEx k p REG_OPTION_NON_VOLATILE KEY_WRITE) /\
     forall h', ~ In (RegCloseKey h') (calls num_log)).
Proof.
  intros Hr text_log num_log.
  destruct (perform_resolved os a f (WriteTextValue path name value type)
              k p w Hr) as [_ Ht].
  destruct (perform_resolved os a f (WriteNumericValue path name number type)
              k p w Hr) as [_ Hn].
  cbn [perform request_shape] in Ht, Hn.
  fold text_log in Ht. fold num_log in Hn.
  destruct (write_released_iff _ _ _ _ _ _ _ Ht) as [Ht1 [Ht2 Ht3]].
  destruct (write_released_iff _ _ _ _ _ _ _ Hn) as [Hn1 [Hn2 Hn3]].
  split; [assumption |]. split; [assumption |].
  split; [assumption |]. split; [assumption |]. split.
  - intros e h n t d c Hin Hc Hst.
    destruct (Ht3 e h n t d c Hin Hc Hst) as [Hrel Hno].
    split; [assumption |]. split; [| assumption].
    destruct Ht; reflexivity.
  - intros e h n t d c Hin Hc Hst.
    destruct (Hn3 e h n t d c Hin Hc Hst) as [Hrel Hno].
    split; [assumption |]. split; [| assumption].
    destruct Hn; reflexivity.
Qed.

Lemma write_leak_witness :
  released (log_of (RegWrite_text scripted Win64 unmapped
              (L "HKCU\Software\Test") (L "Name") (L "Hello") 1) [0; 5]) = false /\
  released (log_of (RegWrite_num scripted Win64 unmapped
              (L "HKCU\Software\Test") (L "Name") 7 4) [0; 0]) = true.
Proof.
  pose proof (write_closes_handle_only_on_success scripted Win64 unmapped [0; 5]
                (L "HKCU\Software\Test") (L "Name") (L "Hello") 7 1
                HKEY_CURRENT_USER (L "Software\Test") eq_refl) as H.
  split.
  - refine (proj1 (proj1 (proj2 (proj2 (proj2 (proj2 H))))
                     (ev (RegSetValueEx (hkey 100) (L "Name") 1
                            (wstring_bytes (L "Hello")) 12)
                         {| status := 5; phkResult := hkey 100 |})
                     (hkey 100) (L "Name") 1 (wstring_bytes (L "Hello")) 12
                     _ eq_refl _)).
    + right. left. reflexivity.
    + discriminate.
  - reflexivity.
Defined.



Lemma diagnostics_are_five_ascii_texts :
  List.length diagnostics = 5%nat /\ NoDup diagnostics /\
  forallb is_ascii_text diagnostics = true /\
  (forall c, checked c = true <-> exists text, diagnostic c = Some text) /\
  (forall c text, diagnostic c = Some text -> In text diagnostics).
Proof.
  split; [reflexivity |]. split.
  - repeat constructor; cbn; intuition discriminate.
  - split; [reflexivity |]. split.
    + intros c. destruct c; cbn; split; intros H;
        try reflexivity; try discriminate H; try (eexists; reflexivity);
        destruct H as [text H]; discriminate H.
    + intros c text H. destruct c; cbn in H; try discriminate H;
        injection H as <-; cbn; tauto.
Qed.

Lemma shape_message_box a r k p l :
  request_shape a r k p l ->
  existsb is_MessageBoxA l = existsb failed l /\
  (List.length (filter is_MessageBoxA l) <= 1)%nat /\
  (forall e, In e l -> is_MessageBoxA e = true ->
     exists text e',
       call e = MessageBoxA text "error" MB_ICONERROR /\
       In e' l /\ failed e' = true /\ diagnostic (call e') = Some text).
Proof.
  intros Hs.
  destruct r; cbn [request_shape] in Hs; destruct Hs;
    (split; [settle_statuses; reflexivity |]);
    (split; [cbn; lia |]);
    intros e Hin Hm;
    repeat (destruct Hin as [<- | Hin]; [try discriminate Hm | ]);
    try contradiction;
    match goal with
    | H : status ?r <> ERROR_SUCCESS |- context [MessageBoxA ?t _ _] =>
        match goal with
        | |- context [ev ?c r] =>
            exists t, (ev c r); split; [reflexivity |];
            split; [cbn; tauto |];
            split; [settle_statuses; reflexivity | reflexivity]
        end
    end.
Qed.

(** C9. In each of the four operations the message box is shown exactly
    when a tested primitive failed, and at most once.  Every message box
    carries the caption ["error"] and the icon [MB_ICONERROR], and its text
    is the diagnostic of a primitive that failed in this call: one of five
    distinct seven-bit texts, one for each of [RegCreateKeyEx],
    [RegSetValueEx], [RegDeleteKey], [RegOpenKeyEx], [RegDeleteValue]. *)
Theorem message_box_exactly_on_failure
    (os : OS) (a : Arch) (f : Frame) (r : Request) (w : world os) :
  let l := log_of (perform os a f r) w in
  existsb is_MessageBoxA l = existsb failed l /\
  (List.length (filter is_MessageBoxA l) <= 1)%nat /\
  (forall e, In e l -> is_MessageBoxA e = true ->
     exists text e',
       call e = MessageBoxA text "error" MB_ICONERROR /\
       In text diagnostics /\ is_ascii_text text = true /\
       In e' l /\ failed e' = true /\ diagnostic (call e') = Some text) /\
  List.length diagnostics = 5%nat /\ NoDup diagnostics /\
  (forall c, checked c = true <-> exists text, diagnostic c = Some text).
Proof.
  intros l.
  destruct diagnostics_are_five_ascii_texts as [H5 [Hnd [Hasc [Hchk Hin5]]]].
  assert (Hbody :
    existsb is_MessageBoxA l = existsb failed l /\
    (List.length (filter is_MessageBoxA l) <= 1)%nat /\
    (forall e, In e l -> is_MessageBoxA e = true ->
       exists text e',
         call e = MessageBoxA text "error" MB_ICONERROR /\
         In e' l /\ failed e' = true /\ diagnostic (call e') = Some text)).
  { destruct (perform_cases os a f r w) as [[j [_ Hl]] | [k [p [_ [_ Hs]]]]].
    - unfold l. rewrite Hl. split; [reflexivity |]. split; [cbn; lia |].
      intros e [].
    - now apply (shape_message_box a r k p). }
  destruct Hbody as [H1 [H2 H3]].
  split; [assumption |]. split; [assumption |]. split.
  - intros e Hin Hm. destruct (H3 e Hin Hm) as [text [e' [Hc [Hin' [Hf Hd]]]]].
    exists text, e'. split; [assumption |].
    assert (Ht : In text diagnostics) by (eapply Hin5; eassumption).
    split; [assumption |]. split; [| now repeat split].
    rewrite forallb_forall in Hasc. now apply Hasc.
  - split; [exact H5 | split; [exact Hnd | exact Hchk]].
Qed.

Lemma message_box_witness :
  existsb is_MessageBoxA
    (log_of (perform scripted Win64 unmapped (DeleteKey (L "HKCR\.test"))) [5])
  = true /\
  existsb is_MessageBoxA
    (log_of (perform scripted Win64 unmapped (DeleteKey (L "HKCR\.test"))) [0])
  = false.
Proof.
  split.
  - rewrite (proj1 (message_box_exactly_on_failure scripted Win64 unmapped
                      (DeleteKey (L "HKCR\.test")) [5])).
    reflexivity.
  - rewrite (proj1 (message_box_exactly_on_failure scripted Win64 unmapped
                      (DeleteKey (L "HKCR\.test")) [0])).
    reflexivity.
Defined.

(** ** The stored payloads: the claims *)

(** The length passed for a text is the byte size of the terminated text,
    kept to the 32 bits of [cbData], on either target. *)
Lemma text_cbData_spec a value :
  text_cbData a value = ((wcslen value + 1) * sizeof_wchar_t) mod 2 ^ 32.
Proof.
  unfold text_cbData, to_DWORD, size_t_wrap.
  destruct a; cbn [sizeof_ptr].
  - change (8 * 4) with 32.
    rewrite Z.mul_mod_idemp_l by discriminate.
    now rewrite Z.mod_mod by discriminate.
  - change (8 * 8) with 64.
    rewrite Z.mul_mod_idemp_l by discriminate.
    apply Z.mod_mod_divide. exists (2 ^ 32). reflexivity.
Qed.

Lemma text_cbData_small a value :
  wcslen value < 2 ^ 31 - 1 ->
  text_cbData a value = (wcslen value + 1) * sizeof_wchar_t.
Proof.
  intros H. rewrite text_cbData_spec. apply Z.mod_small.
  pose proof (wcslen_nonneg value). unfold sizeof_wchar_t. lia.
Qed.

Lemma wcslen_c_str value : wcslen value = Z.of_nat (List.length (c_str value)).
Proof.
  induction value as [| c v IH]; [reflexivity |].
  cbn [wcslen c_str]. destruct (c =? 0); [reflexivity |].
  cbn [List.length]. rewrite IH. lia.
Qed.

Lemma wstring_bytes_cons c v :
  wstring_bytes (c :: v) = byte_at c 0 :: byte_at c 1 :: wstring_bytes v.
Proof. reflexivity. Qed.

Lemma wstring_bytes_length v :
  List.length (wstring_bytes v) = (2 * S (List.length v))%nat.
Proof.
  induction v as [| c v IH]; [reflexivity |].
  rewrite wstring_bytes_cons. cbn [List.length]. rewrite IH. lia.
Qed.

(** The first [(wcslen + 1) * 2] bytes under the pointer are the text up to
    and with its terminator. *)
Lemma text_payload value :
  payload (wstring_bytes value) ((wcslen value + 1) * sizeof_wchar_t)
  = wstring_bytes (c_str value).
Proof.
  unfold payload, sizeof_wchar_t.
  induction value as [| c v IH]; [reflexivity |].
  cbn [wcslen c_str]. rewrite wstring_bytes_cons.
  destruct (c =? 0) eqn:E.
  - apply Z.eqb_eq in E. subst c. reflexivity.
  - pose proof (wcslen_nonneg v).
    replace (Z.to_nat ((1 + wcslen v + 1) * 2))
      with (S (S (Z.to_nat ((wcslen v + 1) * 2)))) by lia.
    cbn [firstn]. rewrite IH. now rewrite wstring_bytes_cons.
Qed.

(** C5, as the code has it.  When [RegWrite] for a text of fewer than
    [2^31 - 1] units reaches [RegSetValueEx], the length it passes is
    (units before the terminator + 1) times the two bytes of a wide
    character, and the bytes so delimited are the text with its
    terminator. *)
Theorem text_length_counts_terminator
    (os : OS) (a : Arch) (f : Frame) (w : world os)
    (path name value : wstring) (type : DWORD)
    (e : Event) (h : HKEY) (n : wstring) (t : DWORD) (d : list byte) (cb : DWORD) :
  In e (log_of (RegWrite_text os a f path name value type) w) ->
  call e = RegSetValueEx h n t d cb ->
  wcslen value < 2 ^ 31 - 1 ->
  cb = (wcslen value + 1) * sizeof_wchar_t /\
  wcslen value = Z.of_nat (List.length (c_str value)) /\
  payload d cb = wstring_bytes (c_str value) /\
  Z.of_nat (List.length (payload d cb)) = cb /\
  n = name /\ t = type.
Proof.
  intros Hin Hc Hlen.
  destruct (perform_cases os a f (WriteTextValue path name value type) w)
    as [[j [_ Hl]] | [k [p [_ [_ Hs]]]]]; cbn [perform] in *.
  - rewrite Hl in Hin. destruct Hin.
  - cbn [request_shape] in Hs.
    assert (Hd : d = wstring_bytes value /\ cb = text_cbData a value /\
                 n = name /\ t = type).
    { destruct Hs; repeat (destruct Hin as [<- | Hin]; try discriminate Hc);
        try contradiction; injection Hc as _ <- <- <- <-; auto. }
    destruct Hd as [-> [-> [-> ->]]].
    rewrite (text_cbData_small a value Hlen).
    split; [reflexivity |]. split; [apply wcslen_c_str |].
    rewrite text_payload. split; [reflexivity |].
    split; [| split; reflexivity].
    rewrite wstring_bytes_length, wcslen_c_str. unfold sizeof_wchar_t. lia.
Qed.

Lemma text_length_witness :
  12 = (wcslen (L "Hello") + 1) * sizeof_wchar_t /\
  payload (wstring_bytes (L "Hello")) 12
    = [72; 0; 101; 0; 108; 0; 108; 0; 111; 0; 0; 0].
Proof.
  pose proof (text_length_counts_terminator scripted Win64 unmapped []
                (L "HKCU\Software\Test") (L "Name") (L "Hello") 1
                (ev (RegSetValueEx (hkey 100) (L "Name") 1
                       (wstring_bytes (L "Hello")) 12) fine)
                (hkey 100) (L "Name") 1 (wstring_bytes (L "Hello")) 12
                (or_intror (or_introl eq_refl)) eq_refl eq_refl) as H.
  split; [exact (proj1 H) | reflexivity].
Defined.

(** Against the scripted system with an empty script every step succeeds. *)
Lemma scripted_write_text_log a f path name value type k p :
  resolve a f path = Resolved k p ->
  log_of (RegWrite_text scripted a f path name value type) [] =
    [ev (RegCreateKeyEx k p REG_OPTION_NON_VOLATILE KEY_WRITE) fine;
     ev (RegSetValueEx (hkey 100) name type (wstring_bytes value)
           (text_cbData a value)) fine;
     ev (RegCloseKey (hkey 100)) fine].
Proof.
  intros Hr. unfold log_of, RegWrite_text, operation. rewrite Hr. reflexivity.
Qed.

Lemma huge_text_wcslen : wcslen huge_text = 2 ^ 31 - 1.
Proof.
  unfold huge_text. rewrite wcslen_repeat by discriminate.
  apply Z2Nat.id. discriminate.
Qed.

(** C5, refuted as stated.  For the text of [2^31 - 1] units on the 64-bit
    target, (units + 1) * 2 is [2^32]; the [DWORD] that [RegSetValueEx]
    receives is [0]. *)
Lemma huge_text_length_is_truncated :
  exists e h n t d cb,
    In e (log_of (RegWrite_text scripted Win64 unmapped
                    (L "HKCU\Software\Test") (L "Name") huge_text 1) []) /\
    call e = RegSetValueEx h n t d cb /\
    cb = 0 /\
    (wcslen huge_text + 1) * sizeof_wchar_t = 4294967296 /\
    cb <> (wcslen huge_text + 1) * sizeof_wchar_t.
Proof.
  assert (Hcb : text_cbData Win64 huge_text = 0).
  { rewrite text_cbData_spec, huge_text_wcslen. reflexivity. }
  assert (Hsz : (wcslen huge_text + 1) * sizeof_wchar_t = 4294967296).
  { rewrite huge_text_wcslen. reflexivity. }
  exists (ev (RegSetValueEx (hkey 100) (L "Name") 1 (wstring_bytes huge_text)
                (text_cbData Win64 huge_text)) fine),
         (hkey 100), (L "Name"), 1, (wstring_bytes huge_text),
         (text_cbData Win64 huge_text).
  split.
  - rewrite (scripted_write_text_log Win64 unmapped (L "HKCU\Software\Test")
               (L "Name") huge_text 1 HKEY_CURRENT_USER (L "Software\Test")
               eq_refl).
    right. left. reflexivity.
  - split; [reflexivity |]. split; [exact Hcb |]. split; [exact Hsz |].
    rewrite Hcb, Hsz. discriminate.
Qed.

Lemma byte_at_testbit v i n :
  0 <= i -> 0 <= n ->
  Z.testbit (byte_at v i) n = (n <? 8) && Z.testbit v (n + 8 * i).
Proof.
  intros Hi Hn. unfold byte_at.
  change 255 with (Z.ones 8).
  rewrite Z.land_spec, Z.shiftr_spec by assumption.
  rewrite Z.testbit_ones_nonneg by lia.
  destruct (n <? 8) eqn:E.
  - apply Z.ltb_lt in E.
    replace (n <? 8) with true; [| symmetry; apply Z.ltb_lt; lia].
    now rewrite andb_true_r.
  - now rewrite andb_false_r.
Qed.

Lemma push_byte_testbit b acc n :
  0 <= n ->
  Z.testbit (Z.lor b (Z.shiftl acc 8)) n =
    Z.testbit b n || Z.testbit acc (n - 8).
Proof.
  intros Hn. now rewrite Z.lor_spec, Z.shiftl_spec.
Qed.

(** Reading the four bytes back gives the value, as far as it fits a
    [DWORD]. *)
Lemma DWORD_bytes_roundtrip v :
  DWORD_of_bytes (DWORD_bytes v) = v mod 2 ^ 32.
Proof.
  unfold DWORD_of_bytes, DWORD_bytes. cbn [fold_right].
  apply Z.bits_inj'. intros n Hn.
  rewrite push_byte_testbit by assumption.
  rewrite byte_at_testbit by lia.
  destruct (Z.ltb_spec n 8) as [H8 | H8].
  { rewrite Z.mod_pow2_bits_low by lia.
    rewrite (Z.testbit_neg_r _ (n - 8)) by lia.
    cbn [andb]. rewrite orb_false_r. f_equal. lia. }
  cbn [andb orb].
  rewrite push_byte_testbit, byte_at_testbit by lia.
  destruct (Z.ltb_spec (n - 8) 8) as [H16 | H16].
  { rewrite Z.mod_pow2_bits_low by lia.
    rewrite (Z.testbit_neg_r _ (n - 8 - 8)) by lia.
    cbn [andb]. rewrite orb_false_r. f_equal. lia. }
  cbn [andb orb].
  rewrite push_byte_testbit, byte_at_testbit by lia.
  destruct (Z.ltb_spec (n - 8 - 8) 8) as [H24 | H24].
  { rewrite Z.mod_pow2_bits_low by lia.
    rewrite (Z.testbit_neg_r _ (n - 8 - 8 - 8)) by lia.
    cbn [andb]. rewrite orb_false_r. f_equal. lia. }
  cbn [andb orb].
  rewrite push_byte_testbit, byte_at_testbit by lia.
  rewrite Z.testbit_0_l, orb_false_r.
  destruct (Z.ltb_spec (n - 8 - 8 - 8) 8) as [H32 | H32].
  { rewrite Z.mod_pow2_bits_low by lia. cbn [andb]. f_equal. lia. }
  rewrite Z.mod_pow2_bits_high by lia. reflexivity.
Qed.

(** C6. When [RegWrite] for a number reaches [RegSetValueEx], it passes
    the four little-endian bytes of the [DWORD] and the length
    [sizeof(value)] = 4, whatever the type tag; the payload read back is
    the number. *)
Theorem numeric_payload_is_the_dword
    (os : OS) (a : Arch) (f : Frame) (w : world os)
    (path name : wstring) (value type : DWORD)
    (e : Event) (h : HKEY) (n : wstring) (t : DWORD) (d : list byte) (cb : DWORD) :
  In e (log_of (RegWrite_num os a f path name value type) w) ->
  call e = RegSetValueEx h n t d cb ->
  cb = sizeof_DWORD /\ cb = 4 /\
  payload d cb = DWORD_bytes value /\
  List.length (payload d cb) = 4%nat /\
  DWORD_of_bytes (payload d cb) = value mod 2 ^ 32 /\
  (0 <= value < 2 ^ 32 -> DWORD_of_bytes (payload d cb) = value) /\
  n = name /\ t = type.
Proof.
  intros Hin Hc.
  destruct (perform_cases os a f (WriteNumericValue path name value type) w)
    as [[j [_ Hl]] | [k [p [_ [_ Hs]]]]]; cbn [perform] in *.
  - rewrite Hl in Hin. destruct Hin.
  - cbn [request_shape] in Hs.
    assert (Hd : d = DWORD_bytes value /\ cb = sizeof_DWORD /\
                 n = name /\ t = type).
    { destruct Hs; repeat (destruct Hin as [<- | Hin]; try discriminate Hc);
        try contradiction; injection Hc as _ <- <- <- <-; auto. }
    destruct Hd as [-> [-> [-> ->]]].
    assert (Hp : payload (DWORD_bytes value) sizeof_DWORD = DWORD_bytes value)
      by reflexivity.
    rewrite Hp. repeat split.
    + apply DWORD_bytes_roundtrip.
    + intros Hv. rewrite DWORD_bytes_roundtrip. now apply Z.mod_small.
Qed.

Lemma numeric_payload_witness :
  payload (DWORD_bytes 305419896) 4 = [120; 86; 52; 18] /\
  DWORD_of_bytes (payload (DWORD_bytes 305419896) 4) = 305419896.
Proof.
  pose proof (numeric_payload_is_the_dword scripted Win32 unmapped []
                (L "HKLM\Software\Test") (L "Count") 305419896 4
                (ev (RegSetValueEx (hkey 100) (L "Count") 4
                       (DWORD_bytes 305419896) 4) fine)
                (hkey 100) (L "Count") 4 (DWORD_bytes 305419896) 4
                (or_intror (or_introl eq_refl)) eq_refl) as H.
  split; [exact (proj1 (proj2 (proj2 H))) |].
  apply (proj1 (proj2 (proj2 (proj2 (proj2 (proj2 H)))))).
  split; [discriminate | reflexivity].
Defined.

(** * Further properties of the four operations *)

(** ** The prefix loop, from the caller's side *)

Lemma known_prefix_or_unmatched path :
  (exists b k, In (b, k) known_prefixes /\ firstn 5 path = b) \/ unmatched path.
Proof.
  destruct (list_eq_dec Z.eq_dec (firstn 5 path) (L "HKCU\")) as [E0 | N0].
  { left. exists (L "HKCU\"), HKEY_CURRENT_USER. split; [cbn; tauto | assumption]. }
  destruct (list_eq_dec Z.eq_dec (firstn 5 path) (L "HKLM\")) as [E1 | N1].
  { left. exists (L "HKLM\"), HKEY_LOCAL_MACHINE. split; [cbn; tauto | assumption]. }
  destruct (list_eq_dec Z.eq_dec (firstn 5 path) (L "HKCR\")) as [E2 | N2].
  { left. exists (L "HKCR\"), HKEY_CLASSES_ROOT. split; [cbn; tauto | assumption]. }
  right. intros b [H | [H | [H | []]]]; subst b; assumption.
Qed.

Lemma resolve_loop_reads_start f path j n :
  exists t, fst (resolve_loop f path j (S n)) = j :: t.
Proof.
  cbn [resolve_loop]. destruct (read_branch f j) as [b |].
  - destruct (wcsncmp path b 5 =? 0).
    + now exists [].
    + destruct (resolve_loop f path (S j) n) as [t r]. now exists t.
  - now exists [].
Qed.

Lemma resolve_loop_fault_inv f path n : forall j0 j,
  snd (resolve_loop f path j0 n) = AccessViolation j ->
  (j0 <= j < j0 + n)%nat /\ read_branch f j = None.
Proof.
  induction n as [| n IH]; intros j0 j H; [discriminate H |].
  cbn [resolve_loop] in H. destruct (read_branch f j0) as [b |] eqn:Hb.
  - destruct (wcsncmp path b 5 =? 0); [discriminate H |].
    destruct (resolve_loop f path (S j0) n) as [t r] eqn:E. cbn [snd] in H.
    destruct (IH (S j0) j) as [Hj Hr]; [now rewrite E |].
    split; [lia | assumption].
  - cbn [snd] in H. injection H as <-. split; [lia | assumption].
Qed.

Lemma resolve_unmatched_harmless a f path :
  unmatched path -> harmless a f path ->
  resolve a f path = Resolved HKEY_CURRENT_USER path.
Proof.
  intros Hu Hq. destruct (unmatched_reaches_index_3 a f path Hu) as [n [Ht Hz]].
  unfold resolve. rewrite Ht. cbn [snd].
  rewrite resolve_loop_exhausts; [reflexivity |].
  intros i Hi. rewrite read_branch_outside by lia. apply Hq; lia.
Qed.

(** X1. A known prefix followed by any subkey text, empty or itself
    starting with a prefix, resolves to the root of that prefix and to
    exactly that text: one prefix is taken off, never more, and every
    operation on such a path returns after a log of its guarded block on
    that root and subkey. *)
Theorem prefix_then_subkey_resolves_to_subkey
    (a : Arch) (f : Frame) (b : wstring) (k : HKEY) (sub : wstring) :
  In (b, k) known_prefixes ->
  resolve a f (b ++ sub) = Resolved k sub /\
  (forall (os : OS) (w : world os) (r : Request),
     request_path r = b ++ sub ->
     outcome_of (perform os a f r) w = Returned /\
     request_shape a r k sub (log_of (perform os a f r) w)).
Proof.
  intros Hin.
  assert (Hl : List.length b = 5%nat).
  { destruct Hin as [H | [H | [H | []]]]; injection H as <- _; reflexivity. }
  assert (Hr : resolve a f (b ++ sub) = Resolved k sub).
  { destruct (resolve_matched a f (b ++ sub) b k Hin) as [Hr _].
    - rewrite <- Hl. rewrite firstn_app, Nat.sub_diag, firstn_all. cbn.
      apply app_nil_r.
    - rewrite Hr. f_equal. rewrite <- Hl.
      rewrite skipn_app, Nat.sub_diag, skipn_all. reflexivity. }
  split; [exact Hr |].
  intros os w r Hp. apply perform_resolved. now rewrite Hp.
Qed.

Lemma prefix_then_subkey_witness :
  resolve Win32 unmapped (L "HKCU\HKLM\Software") =
    Resolved HKEY_CURRENT_USER (L "HKLM\Software") /\
  resolve Win64 unmapped (L "HKCR\") = Resolved HKEY_CLASSES_ROOT [].
Proof.
  split.
  - exact (proj1 (prefix_then_subkey_resolves_to_subkey Win32 unmapped
                    (L "HKCU\") HKEY_CURRENT_USER (L "HKLM\Software")
                    (or_introl eq_refl))).
  - exact (proj1 (prefix_then_subkey_resolves_to_subkey Win64 unmapped
                    (L "HKCR\") HKEY_CLASSES_ROOT []
                    (or_intror (or_intror (or_introl eq_refl))))).
Defined.

(** X2. The prefix loop keeps its reads of [branch] inside the array exactly
    for the paths that begin with one of the three prefixes: every other
    path makes it read past the end, on either target and whatever lies
    there. *)
Theorem loop_stays_inside_iff_known_prefix
    (a : Arch) (f : Frame) (path : wstring) :
  Forall inside (indices_read a f path) <->
  exists b k, In (b, k) known_prefixes /\ firstn 5 path = b.
Proof.
  split.
  - intros Hall.
    destruct (known_prefix_or_unmatched path) as [Hk | Hu]; [assumption |].
    exfalso.
    destruct (unmatched_reaches_index_3 a f path Hu) as [n [Ht _]].
    destruct (resolve_loop_reads_start f path 3 n) as [t Hs].
    unfold indices_read in Hall. rewrite Ht in Hall. cbn [fst] in Hall.
    rewrite Hs in Hall.
    repeat match goal with H : Forall _ (_ :: _) |- _ => inversion H; clear H; subst end.
    unfold inside in *. cbn in *. lia.
  - intros [b [k [Hin Hp]]].
    destruct (resolve_matched a f path b k Hin Hp) as [_ Hall].
    eapply Forall_impl; [| exact Hall].
    intros j Hj. now apply nth_error_Some.
Qed.

Lemma resolve_loop_faults_at f path n : forall j0 j,
  (j0 <= j < j0 + n)%nat ->
  (forall i, (j0 <= i < j)%nat ->
     exists t, read_branch f i = Some t /\ wcsncmp path t 5 <> 0) ->
  read_branch f j = None ->
  resolve_loop f path j0 n = (seq j0 (S j - j0), AccessViolation j).
Proof.
  induction n as [| n IH]; intros j0 j Hj Hpass Hnone; [lia |].
  destruct (Nat.eq_dec j0 j) as [-> | Hne].
  - rewrite resolve_loop_fault by assumption.
    replace (S j - j)%nat with 1%nat by lia. reflexivity.
  - destruct (Hpass j0) as [t [Ht Hc]]; [lia |].
    rewrite (resolve_loop_miss f path j0 n t Ht Hc).
    rewrite (IH (S j0) j); [| lia | intros i Hi; apply Hpass; lia | assumption].
    cbn [fst snd].
    replace (S j - j0)%nat with (S (S j - S j0)) by lia. reflexivity.
Qed.

(** X3. For a path without a known prefix, when the stray pointer at an
    index [j] from 3 to [sizeof(branch) - 1] cannot be read and the stray
    slots before it are readable and compare unequal, the call faults in
    [wcsncmp] at [j], having read [branch] at 0 to [j]; it has not yet
    made any call to the system and leaves the state as it found it. *)
Theorem unreadable_stray_slot_faults_before_any_call
    (os : OS) (a : Arch) (f : Frame) (r : Request) (w : world os) (j : nat) :
  unmatched (request_path r) ->
  (3 <= j)%nat -> Z.of_nat j < sizeof_branch a ->
  (forall i, (3 <= i < j)%nat ->
     exists t, beyond_branch f i = Some t /\
               wcsncmp (request_path r) t 5 <> 0) ->
  beyond_branch f j = None ->
  indices_read a f (request_path r) = seq 0 (S j) /\
  outcome_of (perform os a f r) w = Faulted j /\
  log_of (perform os a f r) w = [] /\
  snd (perform os a f r (start os w)) = start os w.
Proof.
  intros Hu H3 Hj Hpass Hnone.
  destruct (unmatched_reaches_index_3 a f _ Hu) as [n [Ht Hz]].
  assert (Hl : resolve_loop f (request_path r) 3 (S n)
               = (seq 3 (S j - 3), AccessViolation j)).
  { apply resolve_loop_faults_at.
    - lia.
    - intros i Hi. rewrite read_branch_outside by lia. apply Hpass. lia.
    - now rewrite read_branch_outside by lia. }
  assert (Hr : resolve a f (request_path r) = AccessViolation j).
  { unfold resolve. rewrite Ht, Hl. reflexivity. }
  split.
  - unfold indices_read. rewrite Ht, Hl. cbn [fst].
    replace (S j) with (3 + (S j - 3))%nat by lia.
    rewrite seq_app. replace (3 + (S j - 3) - 3)%nat with (S j - 3)%nat by lia.
    reflexivity.
  - destruct (perform_faulted os a f r j w Hr) as [Ho Hlog].
    split; [assumption |]. split; [assumption |].
    destruct r; cbn [perform request_path] in Hr |- *;
      unfold RegWrite_text, RegWrite_num, RegDel_key, RegDel_value, operation;
      rewrite Hr; reflexivity.
Qed.

Lemma fault_witness :
  outcome_of (perform scripted Win64 unmapped (DeleteKey (L "Software\Test"))) [5]
    = Faulted 3 /\
  snd (perform scripted Win64 unmapped (DeleteKey (L "Software\Test"))
         (start scripted [5])) = start scripted [5].
Proof.
  assert (H : forall i, (3 <= i < 3)%nat ->
            exists t, beyond_branch unmapped i = Some t /\
                      wcsncmp (L "Software\Test") t 5 <> 0)
    by (intros i Hi; lia).
  pose proof (unreadable_stray_slot_faults_before_any_call scripted Win64
                unmapped (DeleteKey (L "Software\Test")) [5] 3%nat
                unmatched_example (le_n 3) eq_refl H eq_refl) as W.
  split; [exact (proj1 (proj2 W)) | exact (proj2 (proj2 (proj2 W)))].
Defined.

(** X4. A path of fewer than five units, the empty path among them, begins
    with no prefix, so every operation on it reads [branch[3]]. *)
Theorem short_path_overruns
    (a : Arch) (f : Frame) (path : wstring) :
  (List.length path < 5)%nat ->
  unmatched path /\ In 3%nat (indices_read a f path).
Proof.
  intros Hlen.
  assert (Hu : unmatched path).
  { intros b Hin E. destruct (branch_nonzero b Hin) as [Hl _].
    rewrite <- E, length_firstn in Hl. lia. }
  split; [assumption |].
  destruct (unmatched_reaches_index_3 a f path Hu) as [n [Ht _]].
  destruct (resolve_loop_reads_start f path 3 n) as [t Hs].
  unfold indices_read. rewrite Ht. cbn [fst]. rewrite Hs. cbn. tauto.
Qed.

Lemma short_path_witness :
  unmatched [] /\ In 3%nat (indices_read Win32 quiet []).
Proof.
  apply (short_path_overruns Win32 quiet []). cbn. lia.
Defined.

(** X5. For a path without a known prefix, when every stray slot the loop
    can reach is readable and compares unequal, the loop runs to its bound
    and every operation works on the whole path under [HKEY_CURRENT_USER],
    the root [rootKey] started with. *)
Theorem unmatched_path_falls_back_when_overrun_is_harmless
    (os : OS) (a : Arch) (f : Frame) (r : Request) (w : world os) :
  unmatched (request_path r) ->
  harmless a f (request_path r) ->
  resolve a f (request_path r) = Resolved HKEY_CURRENT_USER (request_path r) /\
  indices_read a f (request_path r) = seq 0 (Z.to_nat (sizeof_branch a)) /\
  outcome_of (perform os a f r) w = Returned /\
  request_shape a r HKEY_CURRENT_USER (request_path r)
    (log_of (perform os a f r) w).
Proof.
  intros Hu Hq.
  pose proof (resolve_unmatched_harmless a f _ Hu Hq) as Hr.
  split; [exact Hr |]. split.
  - destruct (unmatched_reaches_index_3 a f _ Hu) as [n [Ht Hz]].
    unfold indices_read. rewrite Ht. cbn [fst].
    rewrite resolve_loop_exhausts.
    + cbn [fst]. rewrite <- Hz, Nat2Z.id. reflexivity.
    + intros i Hi. rewrite read_branch_outside by lia. apply Hq; lia.
  - now apply perform_resolved.
Qed.

Lemma harmless_example : harmless Win64 quiet (L "Software\Test").
Proof.
  intros j _ _. exists []. split; [reflexivity | discriminate].
Defined.

Lemma fallback_witness :
  calls (log_of (perform scripted Win64 quiet
                   (DeleteValue (L "Software\Test") (L "Name"))) [])
  = [RegOpenKeyEx HKEY_CURRENT_USER (L "Software\Test") KEY_ALL_ACCESS;
     RegDeleteValue (hkey 100) (L "Name");
     RegCloseKey (hkey 100)].
Proof.
  destruct (unmatched_path_falls_back_when_overrun_is_harmless scripted Win64
              quiet (DeleteValue (L "Software\Test") (L "Name")) []
              unmatched_example harmless_example) as [_ [_ [_ Hs]]].
  reflexivity.
Defined.

(** X6. For a path without a known prefix that has at least five units
    before its terminator, when the text behind the stray pointer at index
    3 compares equal to the path over five units, the loop stops there:
    every operation works under the stray value of [keys[3]] and on the
    path advanced by five units, which then still lie inside the text. *)
Theorem stray_match_redirects_the_operation
    (os : OS) (a : Arch) (f : Frame) (r : Request) (w : world os) (t : wstring) :
  unmatched (request_path r) ->
  5 <= wcslen (request_path r) ->
  beyond_branch f 3 = Some t ->
  wcsncmp (request_path r) t 5 = 0 ->
  resolve a f (request_path r)
    = Resolved (beyond_keys f 3) (skipn 5 (request_path r)) /\
  indices_read a f (request_path r) = [0; 1; 2; 3]%nat /\
  outcome_of (perform os a f r) w = Returned /\
  request_shape a r (beyond_keys f 3) (skipn 5 (request_path r))
    (log_of (perform os a f r) w).
Proof.
  intros Hu _ Hb Hc.
  destruct (unmatched_reaches_index_3 a f _ Hu) as [n [Ht _]].
  assert (Hhit : resolve_loop f (request_path r) 3 (S n) =
                 ([3%nat], Resolved (read_keys f 3) (advance 5 (request_path r)))).
  { apply (resolve_loop_hit f _ 3 n t); [| assumption].
    now rewrite read_branch_outside. }
  assert (Hr : resolve a f (request_path r)
               = Resolved (beyond_keys f 3) (skipn 5 (request_path r))).
  { unfold resolve. rewrite Ht, Hhit. reflexivity. }
  split; [exact Hr |]. split.
  - unfold indices_read. rewrite Ht, Hhit. reflexivity.
  - now apply perform_resolved.
Qed.

Lemma stray_match_witness :
  resolve Win64 (aliasing (L "Software\Test") HKEY_LOCAL_MACHINE)
    (L "Software\Test")
  = Resolved HKEY_LOCAL_MACHINE (L "are\Test").
Proof.
  refine (proj1 (stray_match_redirects_the_operation scripted Win64
                   (aliasing (L "Software\Test") HKEY_LOCAL_MACHINE)
                   (DeleteKey (L "Software\Test")) [] (L "Software\Test")
                   unmatched_example _ eq_refl eq_refl)).
  cbv. discriminate.
Defined.

(** ** The guarded blocks, call by call *)

(** X7. [RegDel(path)], once the path has resolved to root [k] and subkey
    [p], issues [RegDeleteKey] on [k], [p] and then, if that succeeded,
    [RegCloseKey] on the root [k] itself; if the deletion failed, the
    message box with ["failed to RegDeleteKey"] and nothing else. *)
Theorem delete_key_sequence
    (os : OS) (a : Arch) (f : Frame) (w : world os)
    (path : wstring) (k : HKEY) (p : wstring) :
  resolve a f path = Resolved k p ->
  let l := log_of (RegDel_key os a f path) w in
  (exists r1 r2,
     status r1 = ERROR_SUCCESS /\
     l = [ev (RegDeleteKey k p) r1; ev (RegCloseKey k) r2]) \/
  (exists r1 r2,
     status r1 <> ERROR_SUCCESS /\
     l = [ev (RegDeleteKey k p) r1;
          ev (MessageBoxA "failed to RegDeleteKey" "error" MB_ICONERROR) r2]).
Proof.
  intros Hr l.
  destruct (perform_resolved os a f (DeleteKey path) k p w Hr) as [_ Hs].
  cbn [perform request_shape] in Hs. fold l in Hs.
  destruct Hs as [r1 r2 H1 | r1 r2 H1].
  - left. now exists r1, r2.
  - right. now exists r1, r2.
Qed.

Lemma delete_key_witness :
  calls (log_of (RegDel_key scripted Win32 unmapped (L "HKLM\Software\Test")) [])
  = [RegDeleteKey HKEY_LOCAL_MACHINE (L "Software\Test");
     RegCloseKey HKEY_LOCAL_MACHINE].
Proof.
  destruct (delete_key_sequence scripted Win32 unmapped []
              (L "HKLM\Software\Test") HKEY_LOCAL_MACHINE (L "Software\Test")
              eq_refl) as [_ | _]; reflexivity.
Defined.

(** X8. Either [RegWrite] overload, once the path has resolved to root [k]
    and subkey [p], issues [RegCreateKeyEx] on [k], [p] with
    [REG_OPTION_NON_VOLATILE] and [KEY_WRITE]; if that succeeded,
    [RegSetValueEx] on the handle created, with the caller's name and type
    tag; if that succeeded too, [RegCloseKey] on that handle.  After a
    failed creation no value is set; after either failure only the message
    box follows. *)
Theorem write_sequence
    (os : OS) (a : Arch) (f : Frame) (w : world os)
    (path name value : wstring) (number type : DWORD) (k : HKEY) (p : wstring) :
  resolve a f path = Resolved k p ->
  write_shape k p name type (wstring_bytes value) (text_cbData a value)
    (log_of (RegWrite_text os a f path name value type) w) /\
  write_shape k p name type (DWORD_bytes number) sizeof_DWORD
    (log_of (RegWrite_num os a f path name number type) w).
Proof.
  intros Hr. split.
  - apply (perform_resolved os a f (WriteTextValue path name value type) k p w Hr).
  - apply (perform_resolved os a f (WriteNumericValue path name number type) k p w Hr).
Qed.

Lemma write_sequence_witness :
  calls (log_of (RegWrite_num scripted Win64 unmapped
                   (L "HKCU\Software\Test") (L "Count") 7 4) [3])
  = [RegCreateKeyEx HKEY_CURRENT_USER (L "Software\Test")
       REG_OPTION_NON_VOLATILE KEY_WRITE;
     MessageBoxA "failed to RegCreateKeyEx" "error" MB_ICONERROR].
Proof.
  destruct (write_sequence scripted Win64 unmapped [3]
              (L "HKCU\Software\Test") (L "Count") (L "Hello") 7 4
              HKEY_CURRENT_USER (L "Software\Test") eq_refl) as [_ Hn].
  reflexivity.
Defined.

Lemma shape_is_short a r k p l :
  request_shape a r k p l ->
  (2 <= List.length l <= 3)%nat /\
  (List.length (filter (fun e => checked (call e)) l) <= 2)%nat /\
  NoDup (calls l) /\
  (exists l' e, l = l' ++ [e] /\ is_RegCloseKey e || is_MessageBoxA e = true /\
                forallb (fun e' => checked (call e')) l' = true).
Proof.
  intros Hs.
  destruct r; cbn [request_shape] in Hs; destruct Hs;
    (split; [cbn; lia |]);
    (split; [cbn; lia |]);
    (split; [repeat constructor; cbn; intuition discriminate |]);
    first [ eexists [_; _], _; split; [reflexivity | split; reflexivity]
          | eexists [_], _; split; [reflexivity | split; reflexivity] ].
Qed.

(** X9. No operation retries or loops on the system: a call issues at most
    three system calls, no call twice and at most two tested primitives,
    and whenever it issues any, the last one is [RegCloseKey] or the
    message box and all before it are tested primitives. *)
Theorem operation_never_retries
    (os : OS) (a : Arch) (f : Frame) (r : Request) (w : world os) :
  let l := log_of (perform os a f r) w in
  (List.length l <= 3)%nat /\
  (List.length (filter (fun e => checked (call e)) l) <= 2)%nat /\
  NoDup (calls l) /\
  (l = [] \/
   exists l' e, l = l' ++ [e] /\ is_RegCloseKey e || is_MessageBoxA e = true /\
                forallb (fun e' => checked (call e')) l' = true).
Proof.
  intros l.
  destruct (perform_cases os a f r w) as [[j [_ Hl]] | [k [p [_ [_ Hs]]]]].
  - unfold l. rewrite Hl. split; [cbn; lia |]. split; [cbn; lia |].
    split; [constructor | now left].
  - destruct (shape_is_short a r k p _ Hs) as [H1 [H2 [H3 H4]]].
    split; [unfold l; lia |]. split; [assumption |]. split; [assumption |].
    now right.
Qed.

(** X10. For a path with a known prefix the whole run (outcome, calls,
    arguments, final state) is the same on the 32-bit and the 64-bit target
    and does not depend on what lies beyond the two arrays. *)
Theorem known_prefix_run_ignores_target_and_frame
    (os : OS) (a a' : Arch) (f f' : Frame) (r : Request) (s : State os)
    (b : wstring) (k : HKEY) :
  In (b, k) known_prefixes ->
  firstn 5 (request_path r) = b ->
  perform os a f r s = perform os a' f' r s.
Proof.
  intros Hin Hp.
  destruct (resolve_matched a f _ b k Hin Hp) as [Hr _].
  destruct (resolve_matched a' f' _ b k Hin Hp) as [Hr' _].
  destruct r; cbn [perform request_path] in *;
    unfold RegWrite_text, RegWrite_num, RegDel_key, RegDel_value, operation;
    rewrite Hr, Hr'; try reflexivity.
  now rewrite (text_cbData_spec a), (text_cbData_spec a').
Qed.

Lemma target_independence_witness :
  perform scripted Win32 unmapped
    (WriteTextValue (L "HKCU\Software\Test") (L "Name") (L "Hello") 1)
    (start scripted [0; 5])
  = perform scripted Win64 quiet
    (WriteTextValue (L "HKCU\Software\Test") (L "Name") (L "Hello") 1)
    (start scripted [0; 5]).
Proof.
  exact (known_prefix_run_ignores_target_and_frame scripted Win32 Win64
           unmapped quiet
           (WriteTextValue (L "HKCU\Software\Test") (L "Name") (L "Hello") 1)
           (start scripted [0; 5]) (L "HKCU\") HKEY_CURRENT_USER
           (or_introl eq_refl) eq_refl).
Defined.

(** ** The stored payloads, further *)

(** What the text overload hands to [RegSetValueEx]. *)
Lemma text_set_call (os : OS) a f (w : world os) path name value type
    e h n t d cb :
  In e (log_of (RegWrite_text os a f path name value type) w) ->
  call e = RegSetValueEx h n t d cb ->
  d = wstring_bytes value /\ cb = text_cbData a value /\ n = name /\ t = type.
Proof.
  intros Hin Hc.
  destruct (perform_cases os a f (WriteTextValue path name value type) w)
    as [[j [_ Hl]] | [k [p [_ [_ Hs]]]]]; cbn [perform] in *.
  - rewrite Hl in Hin. destruct Hin.
  - cbn [request_shape] in Hs.
    destruct Hs; repeat (destruct Hin as [<- | Hin]; try discriminate Hc);
      try contradiction; injection Hc as _ <- <- <- <-; auto.
Qed.

(** What the numeric overload hands to [RegSetValueEx]. *)
Lemma num_set_call (os : OS) a f (w : world os) path name value type
    e h n t d cb :
  In e (log_of (RegWrite_num os a f path name value type) w) ->
  call e = RegSetValueEx h n t d cb ->
  d = DWORD_bytes value /\ cb = sizeof_DWORD /\ n = name /\ t = type.
Proof.
  intros Hin Hc.
  destruct (perform_cases os a f (WriteNumericValue path name value type) w)
    as [[j [_ Hl]] | [k [p [_ [_ Hs]]]]]; cbn [perform] in *.
  - rewrite Hl in Hin. destruct Hin.
  - cbn [request_shape] in Hs.
    destruct Hs; repeat (destruct Hin as [<- | Hin]; try discriminate Hc);
      try contradiction; injection Hc as _ <- <- <- <-; auto.
Qed.

Lemma terminated_size_nat value :
  Z.to_nat ((wcslen value + 1) * sizeof_wchar_t)
  = List.length (wstring_bytes (c_str value)).
Proof.
  rewrite wstring_bytes_length, wcslen_c_str. unfold sizeof_wchar_t. lia.
Qed.

(** X11. Whatever the length of the text, the [cbData] that [RegWrite]
    passes fits a [DWORD], is a whole number of wide characters and never
    exceeds the size of the terminated text, so the bytes the system is
    told to read begin the text and end at its terminator at the latest:
    nothing behind the terminator is handed over. *)
Theorem text_length_never_reaches_past_terminator
    (os : OS) (a : Arch) (f : Frame) (w : world os)
    (path name value : wstring) (type : DWORD)
    (e : Event) (h : HKEY) (n : wstring) (t : DWORD) (d : list byte) (cb : DWORD) :
  In e (log_of (RegWrite_text os a f path name value type) w) ->
  call e = RegSetValueEx h n t d cb ->
  0 <= cb < 2 ^ 32 /\
  cb mod sizeof_wchar_t = 0 /\
  cb <= (wcslen value + 1) * sizeof_wchar_t /\
  Z.of_nat (List.length (payload d cb)) = cb /\
  exists rest, wstring_bytes (c_str value) = payload d cb ++ rest.
Proof.
  intros Hin Hc.
  destruct (text_set_call os a f w path name value type e h n t d cb Hin Hc)
    as [-> [-> _]].
  rewrite text_cbData_spec.
  pose proof (wcslen_nonneg value) as Hw.
  set (X := (wcslen value + 1) * sizeof_wchar_t).
  assert (HX : 0 <= X) by (unfold X, sizeof_wchar_t; lia).
  assert (Hm : 0 <= X mod 2 ^ 32 < 2 ^ 32) by (apply Z.mod_pos_bound; reflexivity).
  assert (Hle : X mod 2 ^ 32 <= X) by (apply Z.mod_le; [assumption | reflexivity]).
  assert (Hpay : payload (wstring_bytes value) (X mod 2 ^ 32)
                 = firstn (Z.to_nat (X mod 2 ^ 32)) (wstring_bytes (c_str value))).
  { rewrite <- (text_payload value). fold X. unfold payload.
    rewrite firstn_firstn. f_equal. lia. }
  split; [assumption |]. split.
  - rewrite Z.mod_mod_divide by (exists (2 ^ 31); reflexivity).
    unfold X. apply Z.mod_mul. discriminate.
  - split; [assumption |]. split.
    + rewrite Hpay, length_firstn, <- terminated_size_nat. fold X. lia.
    + exists (skipn (Z.to_nat (X mod 2 ^ 32)) (wstring_bytes (c_str value))).
      rewrite Hpay. symmetry. apply firstn_skipn.
Qed.

Lemma text_bound_witness :
  0 <= 12 < 2 ^ 32 /\ 12 <= (wcslen (L "Hello") + 1) * sizeof_wchar_t.
Proof.
  pose proof (text_length_never_reaches_past_terminator scripted Win64 unmapped []
                (L "HKCU\Software\Test") (L "Name") (L "Hello") 1
                (ev (RegSetValueEx (hkey 100) (L "Name") 1
                       (wstring_bytes (L "Hello")) 12) fine)
                (hkey 100) (L "Name") 1 (wstring_bytes (L "Hello")) 12
                (or_intror (or_introl eq_refl)) eq_refl) as H.
  split; [exact (proj1 H) | exact (proj1 (proj2 (proj2 H)))].
Defined.

Lemma c_str_app_terminator v1 v2 :
  Forall (fun c => c <> 0) v1 -> c_str (v1 ++ 0 :: v2) = v1.
Proof.
  induction 1 as [| c v Hc _ IH]; [reflexivity |].
  cbn [app c_str]. apply Z.eqb_neq in Hc. now rewrite Hc, IH.
Qed.

(** X12. The length is taken with [wcslen] whatever the type tag, so of a
    value that holds several terminated strings in a row only the first is
    stored: for [v1] free of terminators, writing [v1], a terminator and
    any [v2] stores [v1] with one terminator and nothing of [v2]. *)
Theorem text_after_first_terminator_is_dropped
    (os : OS) (a : Arch) (f : Frame) (w : world os)
    (path name v1 v2 : wstring) (type : DWORD)
    (e : Event) (h : HKEY) (n : wstring) (t : DWORD) (d : list byte) (cb : DWORD) :
  Forall (fun c => c <> 0) v1 ->
  Z.of_nat (List.length v1) < 2 ^ 31 - 1 ->
  In e (log_of (RegWrite_text os a f path name (v1 ++ 0 :: v2) type) w) ->
  call e = RegSetValueEx h n t d cb ->
  cb = (Z.of_nat (List.length v1) + 1) * sizeof_wchar_t /\
  payload d cb = wstring_bytes v1 /\ t = type.
Proof.
  intros Hnz Hlen Hin Hc.
  destruct (text_set_call os a f w path name _ type e h n t d cb Hin Hc)
    as [-> [-> [_ ->]]].
  assert (Hw : wcslen (v1 ++ 0 :: v2) = Z.of_nat (List.length v1))
    by (now rewrite wcslen_c_str, c_str_app_terminator).
  rewrite text_cbData_small by (rewrite Hw; assumption).
  split; [now rewrite Hw |]. split; [| reflexivity].
  rewrite text_payload. now rewrite c_str_app_terminator.
Qed.

Lemma multi_string_witness :
  payload (wstring_bytes (L "ab" ++ 0 :: L "cd")) 6 = wstring_bytes (L "ab").
Proof.
  refine (proj1 (proj2 (text_after_first_terminator_is_dropped scripted Win64
                          unmapped [] (L "HKCU\Software\Test") (L "Name")
                          (L "ab") (L "cd") 7
                          (ev (RegSetValueEx (hkey 100) (L "Name") 7
                                 (wstring_bytes (L "ab" ++ 0 :: L "cd")) 6) fine)
                          (hkey 100) (L "Name") 7
                          (wstring_bytes (L "ab" ++ 0 :: L "cd")) 6
                          _ _ (or_intror (or_introl eq_refl)) eq_refl))).
  - repeat constructor; discriminate.
  - reflexivity.
Defined.

Lemma unit_of_bytes c :
  Z.lor (byte_at c 0) (Z.shiftl (byte_at c 1) 8) = c mod 2 ^ 16.
Proof.
  apply Z.bits_inj'. intros n Hn.
  rewrite push_byte_testbit, byte_at_testbit by lia.
  destruct (Z.ltb_spec n 8) as [H8 | H8].
  { rewrite Z.mod_pow2_bits_low by lia.
    rewrite (Z.testbit_neg_r _ (n - 8)) by lia.
    cbn [andb]. rewrite orb_false_r. f_equal. lia. }
  cbn [andb orb]. rewrite byte_at_testbit by lia.
  destruct (Z.ltb_spec (n - 8) 8) as [H16 | H16].
  { rewrite Z.mod_pow2_bits_low by lia. cbn [andb]. f_equal. lia. }
  rewrite Z.mod_pow2_bits_high by lia. reflexivity.
Qed.

Lemma units_of_wstring_bytes s :
  Forall is_wchar s -> units_of_bytes (wstring_bytes s) = s ++ [0].
Proof.
  induction 1 as [| c s Hc _ IH]; [reflexivity |].
  rewrite wstring_bytes_cons. cbn [units_of_bytes app].
  rewrite IH, unit_of_bytes. f_equal. now apply Z.mod_small.
Qed.

Lemma c_str_keeps_units s : Forall is_wchar s -> Forall is_wchar (c_str s).
Proof.
  induction 1 as [| c s Hc _ IH]; [constructor |].
  cbn [c_str]. destruct (c =? 0); [constructor | now constructor].
Qed.

(** X13. Read back two bytes at a time, low byte first, the payload that
    [RegWrite] stores for a text of 16-bit units (fewer than [2^31 - 1] of
    them) is the text up to its first terminator, followed by the
    terminator. *)
Theorem text_payload_reads_back
    (os : OS) (a : Arch) (f : Frame) (w : world os)
    (path name value : wstring) (type : DWORD)
    (e : Event) (h : HKEY) (n : wstring) (t : DWORD) (d : list byte) (cb : DWORD) :
  Forall is_wchar value ->
  wcslen value < 2 ^ 31 - 1 ->
  In e (log_of (RegWrite_text os a f path name value type) w) ->
  call e = RegSetValueEx h n t d cb ->
  units_of_bytes (payload d cb) = c_str value ++ [0].
Proof.
  intros Hu Hlen Hin Hc.
  destruct (text_set_call os a f w path name value type e h n t d cb Hin Hc)
    as [-> [-> _]].
  rewrite text_cbData_small by assumption.
  rewrite text_payload. apply units_of_wstring_bytes. now apply c_str_keeps_units.
Qed.

Lemma text_read_back_witness :
  units_of_bytes (payload (wstring_bytes (L "Hello")) 12) = L "Hello" ++ [0].
Proof.
  refine (text_payload_reads_back scripted Win32 unmapped []
            (L "HKLM\Software\Test") (L "Name") (L "Hello") 1
            (ev (RegSetValueEx (hkey 100) (L "Name") 1
                   (wstring_bytes (L "Hello")) 12) fine)
            (hkey 100) (L "Name") 1 (wstring_bytes (L "Hello")) 12
            _ eq_refl (or_intror (or_introl eq_refl)) eq_refl).
  repeat constructor; discriminate.
Defined.

Lemma byte_at_range v i : 0 <= byte_at v i < 256.
Proof.
  unfold byte_at. change 255 with (Z.ones 8).
  rewrite Z.land_ones by discriminate.
  apply Z.mod_pos_bound. reflexivity.
Qed.

(** X14. The payload of the numeric [RegWrite] is four bytes in the range
    0..255, and it determines the number: two [DWORD]s with the same
    payload are equal. *)
Theorem numeric_payload_determines_value
    (os : OS) (a : Arch) (f : Frame) (w : world os)
    (path name : wstring) (value type : DWORD)
    (e : Event) (h : HKEY) (n : wstring) (t : DWORD) (d : list byte) (cb : DWORD) :
  0 <= value < 2 ^ 32 ->
  In e (log_of (RegWrite_num os a f path name value type) w) ->
  call e = RegSetValueEx h n t d cb ->
  Forall (fun b => 0 <= b < 256) (payload d cb) /\
  forall value', 0 <= value' < 2 ^ 32 ->
    payload d cb = DWORD_bytes value' -> value' = value.
Proof.
  intros Hv Hin Hc.
  destruct (num_set_call os a f w path name value type e h n t d cb Hin Hc)
    as [-> [-> _]].
  change (payload (DWORD_bytes value) sizeof_DWORD) with (DWORD_bytes value).
  split.
  - unfold DWORD_bytes. repeat constructor; apply byte_at_range.
  - intros v' Hv' E.
    rewrite <- (Z.mod_small value (2 ^ 32)), <- (Z.mod_small v' (2 ^ 32))
      by assumption.
    now rewrite <- !DWORD_bytes_roundtrip, E.
Qed.

Lemma numeric_injective_witness :
  Forall (fun b => 0 <= b < 256) (payload (DWORD_bytes 4294967295) 4).
Proof.
  refine (proj1 (numeric_payload_determines_value scripted Win64 unmapped []
                   (L "HKCU\Software\Test") (L "Count") 4294967295 4
                   (ev (RegSetValueEx (hkey 100) (L "Count") 4
                          (DWORD_bytes 4294967295) 4) fine)
                   (hkey 100) (L "Count") 4 (DWORD_bytes 4294967295) 4
                   _ (or_intror (or_introl eq_refl)) eq_refl)).
  split; [discriminate | reflexivity].
Defined.
